(** * genicam-device-plugin: the device inventory core

    A shallow embedding of the Go sources
      - [aravis/aravis.go]        (the cgo binding: device handles and accessors),
      - [device/fingerprint.go]   (the discovery poller and the grouping of devices),
      - the plugin file of package [device] (the plugin object, its cache
        and [Reserve]),
    and the properties of the reservation validator, the poll cycle, the
    device cache and the grouping that the specification states.

    Go maps are finite maps ([gmap]); slices are lists; a nil map or slice
    and an empty one are not told apart (the code only reads their length
    and ranges over them).  A Go function that returns [(v, err)] returns a
    pair whose second component is [None] for a nil error.  The statements
    the code runs for their effect only (locking, the calls into the C
    library, logging, the channel send) are recorded in a trace of events. *)

From stdpp Require Import gmap strings list fin_maps.
From Stdlib Require Import NArith.

Open Scope string_scope.
Open Scope list_scope.

(** ** Constants of the plugin (package [device]) *)

Definition vendor : string := "tis".
Definition deviceType : string := "genicam".
Definition deviceSerialNbr : string := "GENICAM_DEVICE_SERIAL_NBR".
Definition deviceAddress : string := "GENICAM_DEVICE_ADDRESS".

(** ** The binding to the C library ([aravis/aravis.go]) *)

(** The error of a cgo call is the [errno] the call left behind. *)
Definition Errno : Type := N.

(** [ArvDevice] is an index into the library's device list, a C [unsigned int]. *)
Record ArvDevice : Type := { id : N }.

Global Instance ArvDevice_eq_dec : EqDecision ArvDevice.
Proof. solve_decision. Defined.

(** What the C library answers during one poll cycle.  Every function is
    called at most once per cycle and per device index, so one answer per
    index describes the hardware as the cycle sees it. *)
Record ArvLib : Type := {
  arv_get_n_devices : N * option Errno;
  arv_get_device_id : N → string * option Errno;
  arv_get_device_physical_id : N → string * option Errno;
  arv_get_device_model : N → string * option Errno;
  arv_get_device_serial_nbr : N → string * option Errno;
  arv_get_device_vendor : N → string * option Errno;
  arv_get_device_address : N → string * option Errno;
  arv_get_device_protocol : N → string * option Errno
}.

(** The seven identity attributes the poller reads. *)
Inductive attribute : Type :=
  | AttrId | AttrPhysicalId | AttrModel | AttrSerialNbr
  | AttrVendor | AttrAddress | AttrProtocol.

(** ** Data of [device/fingerprint.go] and of the plugin API *)

Record fingerprintedDevice : Type := {
  device_id : string;
  physical_id : string;
  model : string;
  serial_nbr : string;
  fd_vendor : string;
  address : string;
  protocol : string
}.

Global Instance fingerprintedDevice_eq_dec : EqDecision fingerprintedDevice.
Proof. solve_decision. Defined.

(** [device.Device] of the plugin API; [HwLocality] is always nil here. *)
Record Device : Type := {
  ID : string;
  Healthy : bool;
  HwLocality : option string
}.

Global Instance Device_eq_dec : EqDecision Device.
Proof. solve_decision. Defined.

(** [device.DeviceGroup]; the attributes map holds strings here, as it is
    never filled. *)
Record DeviceGroup : Type := {
  Vendor : string;
  Type_ : string;
  Name : string;
  Devices : list Device;
  Attributes : gmap string string
}.

(** [device.FingerprintResponse]: the groups are pointers, [None] is nil. *)
Record FingerprintResponse : Type := {
  FpDevices : list (option DeviceGroup)
}.

(** [device.NewFingerprint(devices...)] wraps its arguments. *)
Definition NewFingerprint (groups : list (option DeviceGroup)) : FingerprintResponse :=
  {| FpDevices := groups |}.

(** ** Effects: the trace of a run *)

Inductive event : Type :=
  | EvLock                                   (* d.deviceLock.Lock() *)
  | EvUnlock                                 (* d.deviceLock.Unlock() *)
  | EvUpdateDeviceList                       (* aravis.UpdateDeviceList() *)
  | EvGetNumDevices                          (* C.arv_get_n_devices() *)
  | EvReadAttribute (i : N) (a : attribute)  (* one accessor call on a handle *)
  | EvLogError (msg : string)                (* d.logger.Error *)
  | EvLogDebug (msg : string)                (* d.logger.Debug *)
  | EvStore (serial addr : string)           (* d.devices[serial] = addr *)
  | EvSend (resp : FingerprintResponse)      (* devices <- resp *)
  | EvClose.                                 (* close(devices) *)

(** A computation that returns a value and the events it performed. *)
Definition W (A : Type) : Type := (A * list event)%type.

Definition ret {A} (a : A) : W A := (a, []).

Definition bind {A B} (m : W A) (f : A → W B) : W B :=
  let '(a, t1) := m in let '(b, t2) := f a in (b, t1 ++ t2).

Definition emit (e : event) : W unit := (tt, [e]).

Global Arguments bind : simpl never.

Notation "x <~ m ;; k" := (bind m (fun x => k))
  (at level 100, m at next level, right associativity, only parsing).
Notation "m >>> k" := (bind m (fun _ => k))
  (at level 100, right associativity, only parsing).

(** ** [aravis/aravis.go] *)

Definition GetNumDevices (hw : ArvLib) : W (N * option Errno) :=
  emit EvGetNumDevices >>> ret (arv_get_n_devices hw).

(** [C.uint(id)]: the conversion of a Go [uint] to 32 bits. *)
Definition C_uint (n : N) : N := (n mod 2 ^ 32)%N.

(** [for id := uint(0); id < ndevices; id++ { devices = append(...) }] *)
Definition handles (ndevices : N) : list ArvDevice :=
  (fun i => {| id := C_uint (N.of_nat i) |}) <$> seq 0 (N.to_nat ndevices).

Definition GetDevices (hw : ArvLib) : W (list ArvDevice * option Errno) :=
  r <~ GetNumDevices hw ;;
  match r with
  | (_, Some err) => ret ([], Some err)
  | (ndevices, None) => ret (handles ndevices, None)
  end.

Definition UpdateDeviceList : W unit := emit EvUpdateDeviceList.

(** The accessors [Id], [PhysicalId], ... of a handle. *)
Definition accessor (hw : ArvLib) (a : attribute) : N → string * option Errno :=
  match a with
  | AttrId => arv_get_device_id hw
  | AttrPhysicalId => arv_get_device_physical_id hw
  | AttrModel => arv_get_device_model hw
  | AttrSerialNbr => arv_get_device_serial_nbr hw
  | AttrVendor => arv_get_device_vendor hw
  | AttrAddress => arv_get_device_address hw
  | AttrProtocol => arv_get_device_protocol hw
  end.

Definition readAttribute (hw : ArvLib) (dev : ArvDevice) (a : attribute)
  : W (string * option Errno) :=
  emit (EvReadAttribute (id dev) a) >>> ret (accessor hw a (id dev)).

Definition Id hw dev := readAttribute hw dev AttrId.
Definition PhysicalId hw dev := readAttribute hw dev AttrPhysicalId.
Definition Model hw dev := readAttribute hw dev AttrModel.
Definition SerialNbr hw dev := readAttribute hw dev AttrSerialNbr.
Definition GetVendor hw dev := readAttribute hw dev AttrVendor.
Definition Address hw dev := readAttribute hw dev AttrAddress.
Definition Protocol hw dev := readAttribute hw dev AttrProtocol.

(** ** [device/fingerprint.go]: the discovery loop (lines 57-114) *)

(** The body of the loop over [devs]: [None] stands for [continue]. *)
Definition discoverOne (hw : ArvLib) (dev : ArvDevice) : W (option fingerprintedDevice) :=
  r1 <~ Id hw dev ;;
  match r1 with
  | (_, Some _) => emit (EvLogError "failed to get device id") >>> ret None
  | (device_id, None) =>
  r2 <~ PhysicalId hw dev ;;
  match r2 with
  | (_, Some _) => emit (EvLogError "failed to get device physical id") >>> ret None
  | (physical_id, None) =>
  r3 <~ Model hw dev ;;
  match r3 with
  | (_, Some _) => emit (EvLogError "failed to get device model") >>> ret None
  | (model, None) =>
  r4 <~ SerialNbr hw dev ;;
  match r4 with
  | (_, Some _) => emit (EvLogError "failed to get device serial number") >>> ret None
  | (serial_nbr, None) =>
  r5 <~ GetVendor hw dev ;;
  match r5 with
  | (_, Some _) => emit (EvLogError "failed to get device vendor") >>> ret None
  | (vendor, None) =>
  r6 <~ Address hw dev ;;
  match r6 with
  | (_, Some _) => emit (EvLogError "failed to get device address") >>> ret None
  | (address, None) =>
  r7 <~ Protocol hw dev ;;
  match r7 with
  | (_, Some _) => emit (EvLogError "failed to get device protocol") >>> ret None
  | (protocol, None) =>
      emit (EvLogDebug "found device") >>>
      ret (Some {| device_id := device_id; physical_id := physical_id;
                   model := model; serial_nbr := serial_nbr;
                   fd_vendor := vendor; address := address;
                   protocol := protocol |})
  end end end end end end end.

(** [for _, dev := range devs { ... discoveredDevices = append(...) }] *)
Fixpoint discoverLoop (hw : ArvLib) (devs : list ArvDevice)
    (discoveredDevices : list fingerprintedDevice) : W (list fingerprintedDevice) :=
  match devs with
  | [] => ret discoveredDevices
  | dev :: rest =>
      r <~ discoverOne hw dev ;;
      match r with
      | None => discoverLoop hw rest discoveredDevices
      | Some fd => discoverLoop hw rest (discoveredDevices ++ [fd])
      end
  end.

(** ** Package [device]: the plugin object *)

(** [GenicamDevice]: [devices] is the device cache, serial number to
    address.  The logger and the lock carry no data; the period is a
    [time.Duration], in nanoseconds. *)
Record GenicamDevice : Type := {
  enabled : bool;
  fingerprintPeriod : Z;
  devices : gmap string string
}.

(** [NewGenicamDevice]: the fields not listed are Go's zero values. *)
Definition NewGenicamDevice : GenicamDevice :=
  {| enabled := false; fingerprintPeriod := 0; devices := ∅ |}.

Definition with_devices (d : GenicamDevice) (m : gmap string string) : GenicamDevice :=
  {| enabled := enabled d; fingerprintPeriod := fingerprintPeriod d; devices := m |}.

(** ** [device/fingerprint.go]: merge, grouping and the poll cycle *)

(** Lines 121-125: one pass that files each device under its model and
    writes its address into the cache. *)
Fixpoint mergeLoop (discoveredDevices : list fingerprintedDevice)
    (deviceListByDeviceName : gmap string (list fingerprintedDevice))
    (cache : gmap string string)
  : W (gmap string (list fingerprintedDevice) * gmap string string) :=
  match discoveredDevices with
  | [] => ret (deviceListByDeviceName, cache)
  | device :: rest =>
      let byName :=
        <[model device :=
            default [] (deviceListByDeviceName !! model device) ++ [device]]>
          deviceListByDeviceName in
      emit (EvStore (serial_nbr device) (address device)) >>>
      mergeLoop rest byName (<[serial_nbr device := address device]> cache)
  end.

(** The member built for one device (lines 145-149). *)
Definition deviceOf (dev : fingerprintedDevice) : Device :=
  {| ID := serial_nbr dev; Healthy := true; HwLocality := None |}.

(** [deviceGroupFromFingerprintData]: nil for an empty device list. *)
Definition deviceGroupFromFingerprintData (groupName : string)
    (deviceList : list fingerprintedDevice) : option DeviceGroup :=
  if (length deviceList =? 0)%nat then None
  else Some {| Vendor := vendor;
               Type_ := deviceType;
               Name := groupName;
               Devices := deviceOf <$> deviceList;
               Attributes := ∅ |}.

Section Poller.

(** The order in which [range] visits a Go map is not specified: it is a
    parameter, and all that is known of it is that it visits every entry
    once. *)
Variable range : gmap string (list fingerprintedDevice) →
                 list (string * list fingerprintedDevice).

(** Lines 128-131: every entry's group is appended, nil or not. *)
Definition groupLoop (deviceListByDeviceName : gmap string (list fingerprintedDevice))
  : list (option DeviceGroup) :=
  (fun kv => deviceGroupFromFingerprintData kv.1 kv.2) <$> range deviceListByDeviceName.

(** [writeFingerprintToChannel]; the deferred [Unlock] runs last. *)
Definition writeFingerprintToChannel (hw : ArvLib) (d : GenicamDevice) : W GenicamDevice :=
  emit EvLock >>>
  UpdateDeviceList >>>
  r <~ GetDevices hw ;;
  (match r.2 with
   | Some _ => emit (EvLogError "failed to get devices")
   | None => ret tt
   end) >>>
  discoveredDevices <~ discoverLoop hw r.1 [] ;;
  m <~ mergeLoop discoveredDevices ∅ (devices d) ;;
  let deviceGroups := groupLoop m.1 in
  emit (EvSend (NewFingerprint deviceGroups)) >>>
  emit EvUnlock >>>
  ret (with_devices d m.2).

(** [doFingerprint] runs one cycle per tick until it is cancelled, and
    then closes the channel (deferred): the list holds what the hardware
    answers in each of the cycles that run before the cancellation. *)
Fixpoint doFingerprint (ticks : list ArvLib) (d : GenicamDevice) : W GenicamDevice :=
  match ticks with
  | [] => emit EvClose >>> ret d
  | hw :: rest =>
      d' <~ writeFingerprintToChannel hw d ;;
      doFingerprint rest d'
  end.

End Poller.

(** ** Observations on a trace *)

(** The responses sent on the channel, in order. *)
Definition sent (t : list event) : list FingerprintResponse :=
  omap (fun e => match e with EvSend r => Some r | _ => None end) t.

(** The cache writes, in order. *)
Definition stores (t : list event) : list (string * string) :=
  omap (fun e => match e with EvStore s a => Some (s, a) | _ => None end) t.

(** Whether the exclusive lock is held after the events of [t]. *)
Definition held (t : list event) : bool :=
  foldl (fun h e => match e with EvLock => true | EvUnlock => false | _ => h end) false t.

(** Calls into the enumeration library: the rescan, the device count and
    the attribute reads. *)
Definition isEnumeration (e : event) : bool :=
  match e with
  | EvUpdateDeviceList | EvGetNumDevices | EvReadAttribute _ _ => true
  | _ => false
  end.

(** The devices that survive the discovery loop of a cycle. *)
Definition survivors (hw : ArvLib) : list fingerprintedDevice :=
  (discoverLoop hw (GetDevices hw).1.1 []).1.

(** ** Package [device]: [Reserve] *)

Record reservationError : Type := { notExistingIDs : list string }.

(** [(e *reservationError) Error()] *)
Definition reservationError_Error (e : reservationError) : string :=
  "unknown device IDs: " +:+ String.concat "," (notExistingIDs e).

Inductive codes : Type := InvalidArgument.

(** The errors [Reserve] returns. *)
Inductive error : Type :=
  | errPluginDisabled                               (* "genicam device is not enabled" *)
  | errReservation (e : reservationError)           (* &reservationError{...} *)
  | errStatus (c : codes) (serial_nbr : string).    (* status.Newf(c, "unknown device %q", serial_nbr).Err() *)

Record Mount : Type := { TaskPath : string; HostPath : string; ReadOnly : bool }.
Record DeviceSpec : Type := { SpecTaskPath : string; SpecHostPath : string; CgroupPerms : string }.

Record ContainerReservation : Type := {
  Envs : gmap string string;
  Mounts : list Mount;
  ResDevices : list DeviceSpec
}.

(** [&device.ContainerReservation{}] *)
Definition emptyReservation : ContainerReservation :=
  {| Envs := ∅; Mounts := []; ResDevices := [] |}.

(** Lines 210-215, under the read lock: collect the identifiers that are
    not in the cache. *)
Fixpoint missingLoop (cache : gmap string string) (deviceIDs : list string)
    (notExisting : list string) : list string :=
  match deviceIDs with
  | [] => notExisting
  | id :: rest =>
      match cache !! id with
      | None => missingLoop cache rest (notExisting ++ [id])
      | Some _ => missingLoop cache rest notExisting
      end
  end.

(** Lines 228-241, after the read lock is released: look every identifier
    up again and write the two environment entries. *)
Fixpoint responseLoop (cache : gmap string string) (deviceIDs : list string)
    (resp : ContainerReservation) : option ContainerReservation * option error :=
  match deviceIDs with
  | [] => (Some resp, None)
  | serial :: rest =>
      match cache !! serial with
      | None => (None, Some (errStatus InvalidArgument serial))
      | Some addr =>
          responseLoop cache rest
            {| Envs := <[deviceAddress := addr]> (<[deviceSerialNbr := serial]> (Envs resp));
               Mounts := Mounts resp;
               ResDevices := ResDevices resp |}
      end
  end.

(** [Reserve]; logging does not bear on the result. *)
Definition Reserve (d : GenicamDevice) (deviceIDs : list string)
  : option ContainerReservation * option error :=
  if (length deviceIDs =? 0)%nat then (Some emptyReservation, None)
  else if negb (enabled d) then (None, Some errPluginDisabled)
  else
    let notExisting := missingLoop (devices d) deviceIDs [] in
    if negb (length notExisting =? 0)%nat
    then (None, Some (errReservation {| notExistingIDs := notExisting |}))
    else responseLoop (devices d) deviceIDs emptyReservation.

(** ** Concrete hardware for the examples *)

Module Examples.

Definition ok (s : string) : string * option Errno := (s, None).
Definition failed : string * option Errno := ("", Some 5%N).

(** A camera whose seven reads succeed. *)
Definition camera (serial mdl addr : string) (a : attribute) : string * option Errno :=
  match a with
  | AttrId => ok ("TIS-" +:+ serial)
  | AttrPhysicalId => ok ("phys-" +:+ serial)
  | AttrModel => ok mdl
  | AttrSerialNbr => ok serial
  | AttrVendor => ok "The Imaging Source"
  | AttrAddress => ok addr
  | AttrProtocol => ok "GigEVision"
  end.

(** A camera whose address cannot be read. *)
Definition broken (serial mdl : string) (a : attribute) : string * option Errno :=
  match a with
  | AttrAddress => failed
  | _ => camera serial mdl "" a
  end.

Definition bench (n : N * option Errno)
    (cams : list (attribute → string * option Errno)) : ArvLib :=
  let get a i := default (fun _ => failed) (cams !! N.to_nat i) a in
  {| arv_get_n_devices := n;
     arv_get_device_id := get AttrId;
     arv_get_device_physical_id := get AttrPhysicalId;
     arv_get_device_model := get AttrModel;
     arv_get_device_serial_nbr := get AttrSerialNbr;
     arv_get_device_vendor := get AttrVendor;
     arv_get_device_address := get AttrAddress;
     arv_get_device_protocol := get AttrProtocol |}.

(** Two cameras of one model. *)
Definition hwTwo : ArvLib :=
  bench (2%N, None) [camera "A1" "camX" "10.0.0.1"; camera "A2" "camX" "10.0.0.2"].

(** Three cameras of two models; the second cannot be read in full. *)
Definition hwThree : ArvLib :=
  bench (3%N, None)
    [camera "A1" "camX" "10.0.0.1"; broken "B7" "camX"; camera "C3" "camY" "10.0.0.3"].

(** No camera. *)
Definition hwNone : ArvLib := bench (0%N, None) [].

(** The device count cannot be read. *)
Definition hwDown : ArvLib :=
  bench (0%N, Some 19%N) [camera "A1" "camX" "10.0.0.1"].

(** An enabled plugin after configuration, with a given cache. *)
Definition configured (cache : gmap string string) : GenicamDevice :=
  {| enabled := true; fingerprintPeriod := 5000000000; devices := cache |}.

Definition cacheTwo : gmap string string :=
  <["A2" := "10.0.0.2"]> (<["A1" := "10.0.0.1"]> ∅).

End Examples.


(** ** Predicates used in the statements *)

(** An event that neither takes nor releases the lock, writes nothing to
    the cache and does nothing to the channel: a call into the library or
    a log line. *)
Definition quiet (e : event) : Prop :=
  match e with
  | EvLock | EvUnlock | EvStore _ _ | EvSend _ | EvClose => False
  | _ => True
  end.

Definition attributes : list attribute :=
  [AttrId; AttrPhysicalId; AttrModel; AttrSerialNbr; AttrVendor; AttrAddress; AttrProtocol].

(** Some read of an identity attribute of [dev] fails. *)
Definition readFails (hw : ArvLib) (dev : ArvDevice) : bool :=
  existsb (fun a => match (accessor hw a (id dev)).2 with Some _ => true | None => false end)
          attributes.


(** The devices of model [k] among [ds], in the order of [ds]. *)
Definition byModel (k : string) (ds : list fingerprintedDevice) : list fingerprintedDevice :=
  filter (fun fd => model fd = k) ds.

(** One cache write of the merge loop. *)
Definition upsert (cache : gmap string string) (fd : fingerprintedDevice) : gmap string string :=
  <[serial_nbr fd := address fd]> cache.

Definition storeOf (fd : fingerprintedDevice) : event :=
  EvStore (serial_nbr fd) (address fd).

(** The log line of a failed [GetDevices]. *)
Definition logGetDevices (err : option Errno) : list event :=
  match err with Some _ => [EvLogError "failed to get devices"] | None => [] end.

(** The events of the enumeration phase of a cycle (lines 51-114). *)
Definition enumerationTrace (hw : ArvLib) : list event :=
  (GetDevices hw).2 ++ logGetDevices (GetDevices hw).1.2 ++
  (discoverLoop hw (GetDevices hw).1.1 []).2.

(** The group of the devices of model [k] among [ds]. *)
Definition groupOf (k : string) (ds : list fingerprintedDevice) : DeviceGroup :=
  {| Vendor := vendor; Type_ := deviceType; Name := k;
     Devices := deviceOf <$> byModel k ds; Attributes := ∅ |}.

(** Every call into the enumeration library happens while the lock is
    not held. *)
Definition enumerationOutsideLock (t : list event) : Prop :=
  ∀ pre e post, t = pre ++ e :: post → isEnumeration e = true → held pre = false.

(** The serial numbers of the devices that survive a cycle. *)
Definition seen (hw : ArvLib) : gset string :=
  list_to_set (serial_nbr <$> survivors hw).

(** A trace that neither takes nor releases the lock. *)
Definition lockFree (t : list event) : Prop :=
  Forall (fun e => e ≠ EvLock ∧ e ≠ EvUnlock) t.


(** The text [s] occurs in the message [msg]. *)
Definition mentions (s msg : string) : Prop :=
  ∃ pre post, msg = pre +:+ s +:+ post.

(** The identifiers of a request that are not in the cache. *)
Definition absent (cache : gmap string string) (deviceIDs : list string) : list string :=
  filter (fun id => cache !! id = None) deviceIDs.

(** [Reserve] fails with the aggregated error, which names every absent
    identifier, and returns no reservation. *)
Definition failsNamingAbsent (d : GenicamDevice) (deviceIDs : list string) : Prop :=
  ∃ e, Reserve d deviceIDs = (None, Some (errReservation e)) ∧
       ∀ id, id ∈ deviceIDs → devices d !! id = None →
             id ∈ notExistingIDs e ∧ mentions id (reservationError_Error e).

(** The response has, for the identifier [id], an entry of its own that
    carries the serial number and one that carries its address. *)
Definition hasEntryFor (cache : gmap string string) (resp : ContainerReservation)
    (id : string) : Prop :=
  ∃ kSerial kAddress addr,
    cache !! id = Some addr ∧
    Envs resp !! kSerial = Some id ∧ Envs resp !! kAddress = Some addr.

(** ** Further definitions: the rest of the plugin *)

(** [Config], as decoded from the client's plugin configuration. *)
Record Config : Type := {
  Enabled : bool;
  FingerprintPeriod : string
}.

(** [base.Config]: the encoded plugin configuration. *)
Record BaseConfig : Type := { PluginConfig : list Byte.byte }.

(** The errors [SetConfig] returns: the decoder's error as it is, and
    [fmt.Errorf("failed to parse doFingerprint period %q: %v", period, err)]. *)
Inductive configError : Type :=
  | errDecode (err : string)
  | errPeriod (period : string) (err : string).

Section SetConfig.

(** [base.MsgPackDecode] and [time.ParseDuration] belong to other
    packages: they are parameters.  The decoder returns what it wrote into
    the zero [Config] and its error. *)
Variable MsgPackDecode : list Byte.byte → Config * option string.
Variable ParseDuration : string → Z * option string.

(** [SetConfig]: nothing is assigned before both steps have succeeded. *)
Definition SetConfig (c : BaseConfig) (d : GenicamDevice)
  : GenicamDevice * option configError :=
  match MsgPackDecode (PluginConfig c) with
  | (_, Some err) => (d, Some (errDecode err))
  | (config, None) =>
      match ParseDuration (FingerprintPeriod config) with
      | (_, Some err) => (d, Some (errPeriod (FingerprintPeriod config) err))
      | (period, None) =>
          ({| enabled := Enabled config;
              fingerprintPeriod := period;
              devices := devices d |}, None)
      end
  end.

End SetConfig.

(** ** Further observations *)

(** The descriptor built from the seven answers of the library for a
    handle. *)
Definition descriptor (hw : ArvLib) (dev : ArvDevice) : fingerprintedDevice :=
  {| device_id := (arv_get_device_id hw (id dev)).1;
     physical_id := (arv_get_device_physical_id hw (id dev)).1;
     model := (arv_get_device_model hw (id dev)).1;
     serial_nbr := (arv_get_device_serial_nbr hw (id dev)).1;
     fd_vendor := (arv_get_device_vendor hw (id dev)).1;
     address := (arv_get_device_address hw (id dev)).1;
     protocol := (arv_get_device_protocol hw (id dev)).1 |}.

(** The first attribute of a handle whose read fails, with its position
    in the order of reading. *)
Definition firstFailure (hw : ArvLib) (dev : ArvDevice) : option (nat * attribute) :=
  list_find (fun a => is_Some (accessor hw a (id dev)).2) attributes.

(** The log line of a failed read (lines 63, 69, 75, 81, 87, 93, 99). *)
Definition failureMessage (a : attribute) : string :=
  match a with
  | AttrId => "failed to get device id"
  | AttrPhysicalId => "failed to get device physical id"
  | AttrModel => "failed to get device model"
  | AttrSerialNbr => "failed to get device serial number"
  | AttrVendor => "failed to get device vendor"
  | AttrAddress => "failed to get device address"
  | AttrProtocol => "failed to get device protocol"
  end.

(** How often an event of a kind occurs in a trace. *)
Definition occurrences (p : event → bool) (t : list event) : nat :=
  length (filter (fun e => p e = true) t).

Definition isLock (e : event) : bool := match e with EvLock => true | _ => false end.
Definition isUnlock (e : event) : bool := match e with EvUnlock => true | _ => false end.
Definition isClose (e : event) : bool := match e with EvClose => true | _ => false end.
Definition isSend (e : event) : bool := match e with EvSend _ => true | _ => false end.

(** What a cycle writes into the cache, as a map of its own: for a serial
    number read twice in the cycle, the later address. *)
Definition entries (hw : ArvLib) : gmap string string :=
  foldl upsert ∅ (survivors hw).

(** The text holds no comma (character 44). *)
Fixpoint commaFree (s : string) : bool :=
  match s with
  | EmptyString => true
  | String c rest => if Ascii.eqb c (Ascii.ascii_of_nat 44) then false else commaFree rest
  end.

(** Two events are the same, but for the order of the groups in an
    event that is sent. *)
Definition sameButGroupOrder (e1 e2 : event) : Prop :=
  match e1, e2 with
  | EvSend r1, EvSend r2 => FpDevices r1 ≡ₚ FpDevices r2
  | _, _ => e1 = e2
  end.

(** * Properties *)

(** ** The trace monad *)

Lemma bind_fst {A B} (m : W A) (f : A → W B) : (bind m f).1 = (f m.1).1.
Proof. destruct m as [a t]. unfold bind. simpl. by destruct (f a). Qed.

Lemma bind_snd {A B} (m : W A) (f : A → W B) : (bind m f).2 = m.2 ++ (f m.1).2.
Proof. destruct m as [a t]. unfold bind. simpl. by destruct (f a). Qed.

Lemma sent_app t1 t2 : sent (t1 ++ t2) = sent t1 ++ sent t2.
Proof. apply omap_app. Qed.

Lemma stores_app t1 t2 : stores (t1 ++ t2) = stores t1 ++ stores t2.
Proof. apply omap_app. Qed.

Lemma quiet_sent t : Forall quiet t → sent t = [].
Proof.
  induction 1 as [|e t He _ IH]; [done|].
  destruct e; simpl in *; try done.
Qed.

Lemma quiet_stores t : Forall quiet t → stores t = [].
Proof.
  induction 1 as [|e t He _ IH]; [done|].
  destruct e; simpl in *; try done.
Qed.

(** ** Discovery *)

Ltac run_reads :=
  unfold discoverOne, Id, PhysicalId, Model, SerialNbr, GetVendor, Address, Protocol,
    readAttribute, readFails, attributes, bind; simpl;
  repeat match goal with
    | |- context [arv_get_device_id ?hw ?i] => destruct (arv_get_device_id hw i) as [? [?|]]; simpl
    | |- context [arv_get_device_physical_id ?hw ?i] =>
        destruct (arv_get_device_physical_id hw i) as [? [?|]]; simpl
    | |- context [arv_get_device_model ?hw ?i] => destruct (arv_get_device_model hw i) as [? [?|]]; simpl
    | |- context [arv_get_device_serial_nbr ?hw ?i] =>
        destruct (arv_get_device_serial_nbr hw i) as [? [?|]]; simpl
    | |- context [arv_get_device_vendor ?hw ?i] => destruct (arv_get_device_vendor hw i) as [? [?|]]; simpl
    | |- context [arv_get_device_address ?hw ?i] =>
        destruct (arv_get_device_address hw i) as [? [?|]]; simpl
    | |- context [arv_get_device_protocol ?hw ?i] =>
        destruct (arv_get_device_protocol hw i) as [? [?|]]; simpl
    end.

Lemma discoverOne_fails hw dev : readFails hw dev = true → (discoverOne hw dev).1 = None.
Proof. run_reads; done. Qed.

Lemma discoverOne_reads hw dev :
  readFails hw dev = false →
  (discoverOne hw dev).1 =
    Some {| device_id := (arv_get_device_id hw (id dev)).1;
            physical_id := (arv_get_device_physical_id hw (id dev)).1;
            model := (arv_get_device_model hw (id dev)).1;
            serial_nbr := (arv_get_device_serial_nbr hw (id dev)).1;
            fd_vendor := (arv_get_device_vendor hw (id dev)).1;
            address := (arv_get_device_address hw (id dev)).1;
            protocol := (arv_get_device_protocol hw (id dev)).1 |}.
Proof. run_reads; done. Qed.

Lemma discoverOne_quiet hw dev : Forall quiet (discoverOne hw dev).2.
Proof. run_reads; repeat constructor. Qed.

Lemma discoverLoop_fst hw devs acc :
  (discoverLoop hw devs acc).1 = acc ++ omap (fun dev => (discoverOne hw dev).1) devs.
Proof.
  revert acc. induction devs as [|dev rest IH]; intros acc; simpl.
  - by rewrite app_nil_r.
  - rewrite bind_fst. destruct (discoverOne hw dev).1 as [fd|]; rewrite IH.
    + by rewrite <- app_assoc.
    + done.
Qed.

Lemma discoverLoop_quiet hw devs acc : Forall quiet (discoverLoop hw devs acc).2.
Proof.
  revert acc. induction devs as [|dev rest IH]; intros acc; simpl.
  - constructor.
  - rewrite bind_snd. apply Forall_app. split; [apply discoverOne_quiet|].
    destruct (discoverOne hw dev).1; apply IH.
Qed.

(** A device that cannot be read in full leaves the loop's result as if
    it had not been listed; the devices after it are still read. *)
Lemma discoverLoop_skips hw l1 bad l2 :
  readFails hw bad = true →
  (discoverLoop hw (l1 ++ bad :: l2) []).1 =
    (discoverLoop hw l1 []).1 ++ (discoverLoop hw l2 []).1.
Proof.
  intros Hbad. rewrite !discoverLoop_fst. simpl.
  rewrite omap_app. simpl. by rewrite (discoverOne_fails _ _ Hbad).
Qed.

Lemma GetDevices_quiet hw : Forall quiet (GetDevices hw).2.
Proof.
  unfold GetDevices, GetNumDevices, bind. simpl.
  destruct (arv_get_n_devices hw) as [n [e|]]; simpl; repeat constructor.
Qed.

Lemma GetDevices_error hw : (GetDevices hw).1.2 ≠ None → (GetDevices hw).1.1 = [].
Proof.
  unfold GetDevices, GetNumDevices, bind. simpl.
  destruct (arv_get_n_devices hw) as [n [e|]]; simpl; done.
Qed.

(** ** The merge loop *)

Lemma mergeLoop_trace ds byName cache :
  (mergeLoop ds byName cache).2 = storeOf <$> ds.
Proof.
  revert byName cache. induction ds as [|fd rest IH]; intros byName cache; [done|].
  simpl. rewrite bind_snd. simpl. by rewrite IH.
Qed.

Lemma mergeLoop_cache ds byName cache :
  (mergeLoop ds byName cache).1.2 = foldl upsert cache ds.
Proof.
  revert byName cache. induction ds as [|fd rest IH]; intros byName cache; [done|].
  simpl. rewrite bind_fst. simpl. by rewrite IH.
Qed.

(** What the loop files under a model: the devices of that model, in the
    order they were met, after what was filed before. *)
Lemma mergeLoop_byName ds byName cache k :
  (mergeLoop ds byName cache).1.1 !! k =
    match byModel k ds with
    | [] => byName !! k
    | _ => Some (default [] (byName !! k) ++ byModel k ds)
    end.
Proof.
  revert byName cache. induction ds as [|fd rest IH]; intros byName cache; [done|].
  simpl. rewrite bind_fst. simpl. rewrite IH. unfold byModel.
  rewrite filter_cons. destruct (decide (model fd = k)) as [<-|Hne].
  - rewrite lookup_insert_eq. simpl.
    destruct (filter _ rest); by rewrite <- ?app_assoc.
  - by rewrite lookup_insert_ne.
Qed.

Lemma mergeLoop_fresh ds cache k :
  (mergeLoop ds ∅ cache).1.1 !! k =
    match byModel k ds with [] => None | _ => Some (byModel k ds) end.
Proof. rewrite mergeLoop_byName, lookup_empty. by destruct (byModel k ds). Qed.

Lemma mergeLoop_groups_cache ds cache cache' :
  (mergeLoop ds ∅ cache).1.1 = (mergeLoop ds ∅ cache').1.1.
Proof. apply map_eq. intros k. by rewrite !mergeLoop_fresh. Qed.

(** ** The poll cycle, phase by phase *)

Section Cycle.

Variable range : gmap string (list fingerprintedDevice) →
                 list (string * list fingerprintedDevice).

Lemma cycle_state hw d :
  (writeFingerprintToChannel range hw d).1 =
    with_devices d (foldl upsert (devices d) (survivors hw)).
Proof.
  unfold writeFingerprintToChannel, survivors.
  rewrite !bind_fst. simpl. by rewrite mergeLoop_cache.
Qed.

Lemma cycle_trace hw d :
  (writeFingerprintToChannel range hw d).2 =
    [EvLock; EvUpdateDeviceList] ++ enumerationTrace hw ++
      (storeOf <$> survivors hw) ++
      [EvSend (NewFingerprint (groupLoop range (mergeLoop (survivors hw) ∅ (devices d)).1.1));
       EvUnlock].
Proof.
  unfold writeFingerprintToChannel, survivors, enumerationTrace.
  rewrite !bind_snd, ?bind_fst. simpl. rewrite mergeLoop_trace.
  do 2 f_equal. rewrite <- !app_assoc. f_equal.
  destruct (GetDevices hw).1.2; simpl; done.
Qed.

Lemma enumeration_quiet hw : Forall quiet (enumerationTrace hw).
Proof.
  unfold enumerationTrace. rewrite !Forall_app. split_and!.
  - apply GetDevices_quiet.
  - destruct (GetDevices hw).1.2; repeat constructor.
  - apply discoverLoop_quiet.
Qed.

Lemma cycle_sent hw d :
  sent (writeFingerprintToChannel range hw d).2 =
    [NewFingerprint (groupLoop range (mergeLoop (survivors hw) ∅ (devices d)).1.1)].
Proof.
  rewrite cycle_trace, !sent_app.
  rewrite (quiet_sent _ (enumeration_quiet hw)). simpl.
  assert (sent (storeOf <$> survivors hw) = []) as ->; [|done].
  induction (survivors hw); simpl; done.
Qed.

Lemma cycle_stores hw d :
  stores (writeFingerprintToChannel range hw d).2 =
    (fun fd => (serial_nbr fd, address fd)) <$> survivors hw.
Proof.
  rewrite cycle_trace, !stores_app.
  rewrite (quiet_stores _ (enumeration_quiet hw)). simpl.
  rewrite app_nil_r. induction (survivors hw) as [|fd l IH]; simpl; [done|].
  by f_equal.
Qed.

End Cycle.

(** ** Grouping by model *)

Lemma byModel_nonempty k ds : byModel k ds ≠ [] ↔ k ∈ model <$> ds.
Proof.
  unfold byModel. rewrite list_elem_of_fmap. split.
  - intros Hne. destruct (filter _ ds) as [|fd l] eqn:Hf; [done|].
    assert (fd ∈ filter (fun fd => model fd = k) ds) as Hin by (rewrite Hf; left).
    apply list_elem_of_filter in Hin as [Hm Hin]. eauto.
  - intros (fd & -> & Hin) Hnil.
    assert (fd ∈ filter (fun fd' => model fd' = model fd) ds) as Hin'
      by (by apply list_elem_of_filter).
    rewrite Hnil in Hin'. by apply elem_of_nil in Hin'.
Qed.

(** Filing a list under the models of a duplicate-free list of keys that
    covers it loses no device and repeats none. *)
Lemma byModel_partition keys ds :
  NoDup keys → (∀ fd, fd ∈ ds → model fd ∈ keys) →
  concat ((fun k => byModel k ds) <$> keys) ≡ₚ ds.
Proof.
  intros Hnd. revert ds. induction Hnd as [|k ks Hk Hnd IH]; intros ds Hcover.
  - destruct ds as [|fd ds]; [done|].
    specialize (Hcover fd ltac:(left)). by apply elem_of_nil in Hcover.
  - rewrite fmap_cons. cbn [concat]. set (ds' := filter (fun fd => ¬ model fd = k) ds).
    assert ((fun k' => byModel k' ds) <$> ks = (fun k' => byModel k' ds') <$> ks) as ->.
    { apply list_fmap_ext. intros i k' Hi. unfold byModel, ds'.
      symmetry. apply list_filter_filter_l. intros fd -> ->.
      apply Hk. by eapply list_elem_of_lookup_2. }
    rewrite IH.
    + unfold byModel, ds'. apply filter_app_complement.
    + intros fd [Hne Hin]%list_elem_of_filter.
      specialize (Hcover fd Hin). apply elem_of_cons in Hcover as [?|?]; done.
Qed.

Section Grouping.

Variable range : gmap string (list fingerprintedDevice) →
                 list (string * list fingerprintedDevice).
Hypothesis range_perm : ∀ m, range m ≡ₚ map_to_list m.

Lemma range_lookup m k v : (k, v) ∈ range m ↔ m !! k = Some v.
Proof. rewrite range_perm. apply elem_of_map_to_list. Qed.

Lemma range_keys_NoDup m : NoDup (range m).*1.
Proof. rewrite range_perm. apply NoDup_fst_map_to_list. Qed.

Lemma range_empty : range ∅ = [].
Proof. apply Permutation_nil_r. by rewrite range_perm, map_to_list_empty. Qed.

Lemma range_merged ds cache k v :
  (k, v) ∈ range (mergeLoop ds ∅ cache).1.1 ↔ v = byModel k ds ∧ v ≠ [].
Proof.
  rewrite range_lookup, mergeLoop_fresh.
  destruct (byModel k ds) as [|fd l]; split.
  - done.
  - by intros [-> ?].
  - by intros [= <-].
  - by intros [-> _].
Qed.

Lemma range_merged_keys ds cache k :
  k ∈ (range (mergeLoop ds ∅ cache).1.1).*1 ↔ k ∈ model <$> ds.
Proof.
  rewrite <- byModel_nonempty, list_elem_of_fmap. split.
  - intros ([k' v] & -> & Hin). apply range_merged in Hin as [-> ?]. done.
  - intros Hne. exists (k, byModel k ds). split; [done|]. by apply range_merged.
Qed.

(** Every entry of the map yields a group, never nil. *)
Lemma groupLoop_merged ds cache :
  groupLoop range (mergeLoop ds ∅ cache).1.1 =
    Some <$> ((fun kv => groupOf kv.1 ds) <$> range (mergeLoop ds ∅ cache).1.1).
Proof.
  unfold groupLoop. rewrite <- list_fmap_compose. apply list_fmap_ext.
  intros i [k v] Hi. apply list_elem_of_lookup_2, range_merged in Hi as [-> Hne].
  simpl. unfold deviceGroupFromFingerprintData, groupOf.
  destruct (byModel k ds); done.
Qed.

Lemma groups_names ds cache :
  Name <$> ((fun kv => groupOf kv.1 ds) <$> range (mergeLoop ds ∅ cache).1.1) =
    (range (mergeLoop ds ∅ cache).1.1).*1.
Proof. rewrite <- list_fmap_compose. done. Qed.

Lemma groups_members ds cache :
  concat (Devices <$> ((fun kv => groupOf kv.1 ds) <$> range (mergeLoop ds ∅ cache).1.1))
    ≡ₚ deviceOf <$> ds.
Proof.
  rewrite <- list_fmap_compose.
  transitivity (deviceOf <$>
    concat ((fun k => byModel k ds) <$> (range (mergeLoop ds ∅ cache).1.1).*1)).
  - rewrite <- list_fmap_compose.
    induction (range (mergeLoop ds ∅ cache).1.1) as [|kv l IH]; simpl; [done|].
    by rewrite fmap_app, IH.
  - apply fmap_Permutation, byModel_partition.
    + apply range_keys_NoDup.
    + intros fd Hin. apply range_merged_keys, list_elem_of_fmap. eauto.
Qed.

End Grouping.

(** ** The lock around a cycle *)

Lemma held_app t1 t2 : lockFree t2 → held (t1 ++ t2) = held t1.
Proof.
  unfold held. rewrite foldl_app. generalize (foldl
    (fun h e => match e with EvLock => true | EvUnlock => false | _ => h end) false t1).
  intros h Hfree. induction Hfree as [|e t [He1 He2] _ IH]; [done|].
  simpl. by destruct e.
Qed.

Lemma quiet_lockFree t : Forall quiet t → lockFree t.
Proof. intros H. eapply Forall_impl; [exact H|]. intros e He. by destruct e. Qed.

Lemma cycle_body range hw d :
  ∃ body, (writeFingerprintToChannel range hw d).2 = EvLock :: body ++ [EvUnlock]
          ∧ lockFree body.
Proof.
  exists (EvUpdateDeviceList :: enumerationTrace hw ++ (storeOf <$> survivors hw) ++
          [EvSend (NewFingerprint
             (groupLoop range (mergeLoop (survivors hw) ∅ (devices d)).1.1))]).
  split.
  - rewrite cycle_trace. simpl. by rewrite <- !app_assoc.
  - constructor; [done|]. rewrite !Forall_app. split_and!.
    + apply quiet_lockFree, enumeration_quiet.
    + apply Forall_fmap, Forall_true. done.
    + by repeat constructor.
Qed.

(** ** The cache across cycles *)

Lemma upsert_dom cache ds :
  dom (foldl upsert cache ds) = dom cache ∪ list_to_set (serial_nbr <$> ds).
Proof.
  revert cache. induction ds as [|fd ds IH]; intros cache.
  - simpl. by rewrite (right_id_L ∅ (∪)).
  - rewrite fmap_cons, list_to_set_cons. cbn [foldl]. rewrite IH.
    unfold upsert. rewrite dom_insert_L.
    rewrite (comm_L (∪) {[serial_nbr fd]} (dom cache)). by rewrite (assoc_L (∪)).
Qed.

Lemma upsert_latest cache ds s :
  s ∈ serial_nbr <$> ds →
  ∃ fd, fd ∈ ds ∧ serial_nbr fd = s ∧ foldl upsert cache ds !! s = Some (address fd).
Proof.
  induction ds as [|fd ds IH] using rev_ind; [by intros ?%elem_of_nil|].
  rewrite fmap_app, foldl_app. simpl. intros Hin.
  destruct (decide (serial_nbr fd = s)) as [<-|Hne].
  - exists fd. split_and!; [apply elem_of_app; right; left|done|].
    unfold upsert at 1. by rewrite lookup_insert_eq.
  - apply elem_of_app in Hin as [Hin|Hin].
    + destruct (IH Hin) as (fd' & ? & ? & ?). exists fd'.
      split_and!; [apply elem_of_app; by left|done|].
      unfold upsert at 1. by rewrite lookup_insert_ne.
    + apply list_elem_of_singleton in Hin. done.
Qed.

Lemma doFingerprint_app range t1 t2 d :
  (doFingerprint range (t1 ++ t2) d).1 =
    (doFingerprint range t2 (doFingerprint range t1 d).1).1.
Proof.
  revert d. induction t1 as [|hw t1 IH]; intros d; [done|].
  simpl. rewrite !bind_fst. apply IH.
Qed.

Lemma doFingerprint_dom range ticks d :
  dom (devices (doFingerprint range ticks d).1) = dom (devices d) ∪ ⋃ (seen <$> ticks).
Proof.
  revert d. induction ticks as [|hw ticks IH]; intros d.
  - simpl. by rewrite (right_id_L ∅ (∪)).
  - rewrite fmap_cons, union_list_cons. cbn [doFingerprint].
    rewrite bind_fst, IH, cycle_state. simpl. rewrite upsert_dom. unfold seen.
    by rewrite (assoc_L (∪)).
Qed.

Lemma doFingerprint_sent range ticks d :
  length (sent (doFingerprint range ticks d).2) = length ticks.
Proof.
  revert d. induction ticks as [|hw ticks IH]; intros d; [done|].
  simpl. rewrite bind_snd, sent_app, length_app, cycle_sent, IH. done.
Qed.

(** ** Reservation *)

Lemma string_app_assoc (s1 s2 s3 : string) : (s1 +:+ s2) +:+ s3 = s1 +:+ s2 +:+ s3.
Proof. induction s1 as [|c s1 IH]; [done|]. exact (f_equal (String c) IH). Qed.

Lemma string_app_nil_r (s : string) : s +:+ "" = s.
Proof. induction s as [|c s IH]; [done|]. exact (f_equal (String c) IH). Qed.

Lemma mentions_prepend p s msg : mentions s msg → mentions s (p +:+ msg).
Proof.
  intros (pre & post & ->). exists (p +:+ pre), post. by rewrite string_app_assoc.
Qed.

Lemma mentions_concat sep (l : list string) s : s ∈ l → mentions s (String.concat sep l).
Proof.
  induction l as [|x xs IH]; [by intros ?%elem_of_nil|].
  intros Hin. apply elem_of_cons in Hin as [->|Hin].
  - destruct xs as [|y ys].
    + exists "", "". symmetry. apply string_app_nil_r.
    + exists "", (sep +:+ String.concat sep (y :: ys)). done.
  - destruct xs as [|y ys]; [by apply elem_of_nil in Hin|].
    change (String.concat sep (x :: y :: ys))
      with (x +:+ sep +:+ String.concat sep (y :: ys)).
    by apply mentions_prepend, mentions_prepend, IH.
Qed.

Lemma missingLoop_absent cache ids acc : missingLoop cache ids acc = acc ++ absent cache ids.
Proof.
  revert acc. induction ids as [|id rest IH]; intros acc; simpl.
  - by rewrite app_nil_r.
  - unfold absent. rewrite filter_cons. destruct (cache !! id) eqn:Hid; rewrite IH.
    + by rewrite decide_False.
    + rewrite decide_True by done. by rewrite <- app_assoc.
Qed.

Lemma absent_nil cache ids : absent cache ids = [] ↔ ∀ id, id ∈ ids → is_Some (cache !! id).
Proof.
  split.
  - intros Hnil id Hin. destruct (cache !! id) eqn:Hid; [done|].
    assert (id ∈ absent cache ids) as Hbad by (by apply list_elem_of_filter).
    rewrite Hnil in Hbad. by apply elem_of_nil in Hbad.
  - intros Hall. destruct (absent cache ids) as [|id l] eqn:Habs; [done|].
    assert (id ∈ absent cache ids) as Hin by (rewrite Habs; left).
    apply list_elem_of_filter in Hin as [Hnone Hin].
    destruct (Hall id Hin) as [a Ha]. congruence.
Qed.

Lemma responseLoop_present cache ids resp :
  (∀ id, id ∈ ids → is_Some (cache !! id)) →
  ∃ resp', responseLoop cache ids resp = (Some resp', None).
Proof.
  revert resp. induction ids as [|id rest IH]; intros resp Hall; simpl; [eauto|].
  destruct (Hall id) as [a ->]; [left|]. apply IH. intros id' Hin. apply Hall. by right.
Qed.

Lemma envs_overwrite (m : gmap string string) s a s' a' :
  <[deviceAddress := a]> (<[deviceSerialNbr := s]>
    (<[deviceAddress := a']> (<[deviceSerialNbr := s']> m))) =
  <[deviceAddress := a]> (<[deviceSerialNbr := s]> m).
Proof.
  apply map_eq. intros k.
  destruct (decide (deviceAddress = k)) as [<-|?]; [by rewrite !lookup_insert_eq|].
  rewrite !(lookup_insert_ne _ deviceAddress) by done.
  destruct (decide (deviceSerialNbr = k)) as [<-|?]; [by rewrite !lookup_insert_eq|].
  by repeat (rewrite lookup_insert_ne by done).
Qed.

(** Both environment entries are written under fixed names: after the
    loop they hold what the last identifier wrote. *)
Lemma responseLoop_last cache ids s a resp :
  cache !! s = Some a → (∀ id, id ∈ ids → is_Some (cache !! id)) →
  ∃ s' a', last (s :: ids) = Some s' ∧ cache !! s' = Some a' ∧
    responseLoop cache (s :: ids) resp =
      (Some {| Envs := <[deviceAddress := a']> (<[deviceSerialNbr := s']> (Envs resp));
               Mounts := Mounts resp; ResDevices := ResDevices resp |}, None).
Proof.
  revert s a resp. induction ids as [|id rest IH]; intros s a resp Hs Hall.
  - exists s, a. simpl. by rewrite Hs.
  - destruct (Hall id) as [b Hb]; [left|].
    destruct (IH id b
      {| Envs := <[deviceAddress := a]> (<[deviceSerialNbr := s]> (Envs resp));
         Mounts := Mounts resp; ResDevices := ResDevices resp |} Hb)
      as (s' & a' & Hlast & Hs' & Hrun).
    { intros id' Hin. apply Hall. by right. }
    exists s', a'. split_and!; [done..|].
    change (responseLoop cache (s :: id :: rest) resp) with
      (match cache !! s with
       | None => (None, Some (errStatus InvalidArgument s))
       | Some addr => responseLoop cache (id :: rest)
           {| Envs := <[deviceAddress := addr]> (<[deviceSerialNbr := s]> (Envs resp));
              Mounts := Mounts resp; ResDevices := ResDevices resp |}
       end).
    rewrite Hs, Hrun. simpl. by rewrite envs_overwrite.
Qed.

(** * The poll cycle and the grouping *)

Section PollCycle.

Variable range : gmap string (list fingerprintedDevice) →
                 list (string * list fingerprintedDevice).
Hypothesis range_perm : ∀ m, range m ≡ₚ map_to_list m.

(** C6. For every list [ds] of surviving descriptors, the groups built
    from it (the merge loop's map, then one group per entry) are all
    non-nil; there is exactly one group per distinct model of [ds]: the
    names are pairwise distinct and are the models that occur in [ds];
    the group named [k] has the fixed vendor and type, no attributes,
    and its members are the devices of model [k] of [ds], in the order
    of [ds], each as [{ID: serial number, Healthy: true}]. *)
Theorem grouping_one_group_per_model (ds : list fingerprintedDevice)
    (cache : gmap string string) :
  ∃ gs : list DeviceGroup,
    groupLoop range (mergeLoop ds ∅ cache).1.1 = Some <$> gs ∧
    NoDup (Name <$> gs) ∧
    (∀ k, k ∈ Name <$> gs ↔ k ∈ model <$> ds) ∧
    ∀ g, g ∈ gs →
      Vendor g = vendor ∧ Type_ g = deviceType ∧ Attributes g = ∅ ∧
      Devices g =
        (fun fd => {| ID := serial_nbr fd; Healthy := true; HwLocality := None |})
          <$> filter (fun fd => model fd = Name g) ds.
Proof.
  exists ((fun kv => groupOf kv.1 ds) <$> range (mergeLoop ds ∅ cache).1.1).
  split_and!.
  - by apply groupLoop_merged.
  - rewrite groups_names. by apply range_keys_NoDup.
  - intros k. rewrite groups_names. by apply range_merged_keys.
  - intros g ([k v] & -> & _)%list_elem_of_fmap. done.
Qed.


(** C8. When the device list of a cycle is [l1 ++ bad :: l2] and some
    identity attribute of [bad] cannot be read, the cycle's cache
    writes, its new cache and the members of its groups are those of
    the devices that survive from [l1] and from [l2]: [bad] adds
    nothing, and every device of [l2] that can be read in full is still
    written to the cache. *)
Theorem unreadable_device_is_skipped (hw : ArvLib) (d : GenicamDevice)
    (l1 l2 : list ArvDevice) (bad : ArvDevice) :
  (GetDevices hw).1.1 = l1 ++ bad :: l2 →
  readFails hw bad = true →
  let ds := (discoverLoop hw l1 []).1 ++ (discoverLoop hw l2 []).1 in
  let run := writeFingerprintToChannel range hw d in
  stores run.2 = (fun fd => (serial_nbr fd, address fd)) <$> ds ∧
  devices run.1 = foldl upsert (devices d) ds ∧
  (∃ gs, sent run.2 = [NewFingerprint (Some <$> gs)] ∧
         concat (Devices <$> gs) ≡ₚ deviceOf <$> ds) ∧
  ∀ dev, dev ∈ l2 → readFails hw dev = false →
    ((arv_get_device_serial_nbr hw (id dev)).1,
     (arv_get_device_address hw (id dev)).1) ∈ stores run.2.
Proof.
  intros Hdevs Hbad ds run.
  assert (survivors hw = ds) as Hds.
  { unfold survivors, ds. rewrite Hdevs. by apply discoverLoop_skips. }
  split_and!.
  - unfold run. by rewrite cycle_stores, Hds.
  - unfold run. by rewrite cycle_state, Hds.
  - exists ((fun kv => groupOf kv.1 ds) <$> range (mergeLoop ds ∅ (devices d)).1.1).
    split; [|by apply groups_members].
    unfold run. rewrite cycle_sent, Hds. by rewrite groupLoop_merged.
  - intros dev Hin Hok. unfold run. rewrite cycle_stores, Hds.
    apply list_elem_of_fmap.
    eexists. split; [|apply elem_of_app; right; rewrite discoverLoop_fst; simpl;
      apply list_elem_of_omap; exists dev; split;
      [exact Hin|by apply discoverOne_reads]].
    done.
Qed.

(** C9. Every poll cycle sends exactly one event.  The event holds a
    non-empty group for every model met among the cycle's surviving
    devices; when the device list cannot be obtained or is empty the
    event is still sent and holds zero groups.  A loop of [n] cycles
    sends [n] events. *)
Theorem every_cycle_emits_one_event (hw : ArvLib) (d : GenicamDevice) :
  ∃ resp : FingerprintResponse,
    sent (writeFingerprintToChannel range hw d).2 = [resp] ∧
    (∀ k, k ∈ model <$> survivors hw →
          ∃ g, Some g ∈ FpDevices resp ∧ Name g = k ∧ Devices g ≠ []) ∧
    ((GetDevices hw).1.2 ≠ None ∨ (GetDevices hw).1.1 = [] → FpDevices resp = []) ∧
    ∀ ticks d0, length (sent (doFingerprint range ticks d0).2) = length ticks.
Proof.
  eexists. split_and!.
  - apply cycle_sent.
  - intros k Hk. simpl. rewrite groupLoop_merged by done.
    exists (groupOf k (survivors hw)). split_and!; [|done|].
    + apply list_elem_of_fmap. eexists. split; [done|].
      apply list_elem_of_fmap. exists (k, byModel k (survivors hw)). split; [done|].
      apply range_merged; [done|]. split; [done|]. by apply byModel_nonempty.
    + simpl. apply byModel_nonempty in Hk. by destruct (byModel k (survivors hw)).
  - intros Hnone. simpl.
    assert (survivors hw = []) as ->.
    { unfold survivors. destruct Hnone as [Herr|Hnil].
      - by rewrite (GetDevices_error _ Herr).
      - by rewrite Hnil. }
    simpl. unfold groupLoop. by rewrite range_empty.
  - intros ticks d0. apply doFingerprint_sent.
Qed.

End PollCycle.

(** The three cameras of [hwThree], of which the second cannot be read:
    the groups are built with the iteration order of [map_to_list]. *)
Lemma grouping_one_group_per_model_witness :
  (∀ m : gmap string (list fingerprintedDevice), map_to_list m ≡ₚ map_to_list m) ∧
  ∃ gs : list DeviceGroup,
    groupLoop map_to_list (mergeLoop (survivors Examples.hwThree) ∅ ∅).1.1 = Some <$> gs ∧
    NoDup (Name <$> gs) ∧
    (∀ k, k ∈ Name <$> gs ↔ k ∈ model <$> survivors Examples.hwThree) ∧
    ∀ g, g ∈ gs →
      Vendor g = vendor ∧ Type_ g = deviceType ∧ Attributes g = ∅ ∧
      Devices g =
        (fun fd => {| ID := serial_nbr fd; Healthy := true; HwLocality := None |})
          <$> filter (fun fd => model fd = Name g) (survivors Examples.hwThree).
Proof.
  split; [intros m; reflexivity|].
  apply (grouping_one_group_per_model map_to_list). intros m. reflexivity.
Defined.


Lemma unreadable_device_is_skipped_witness :
  let hw := Examples.hwThree in
  let run := writeFingerprintToChannel map_to_list hw NewGenicamDevice in
  let ds := (discoverLoop hw [{| id := 0 |}] []).1 ++ (discoverLoop hw [{| id := 2 |}] []).1 in
  (GetDevices hw).1.1 = [{| id := 0 |}] ++ {| id := 1 |} :: [{| id := 2 |}] ∧
  readFails hw {| id := 1 |} = true ∧
  stores run.2 = (fun fd => (serial_nbr fd, address fd)) <$> ds ∧
  devices run.1 = foldl upsert ∅ ds ∧
  (∃ gs, sent run.2 = [NewFingerprint (Some <$> gs)] ∧
         concat (Devices <$> gs) ≡ₚ deviceOf <$> ds) ∧
  ∀ dev, dev ∈ [{| id := 2%N |}] → readFails hw dev = false →
    ((arv_get_device_serial_nbr hw (id dev)).1,
     (arv_get_device_address hw (id dev)).1) ∈ stores run.2.
Proof.
  intros hw run ds.
  split; [reflexivity|]. split; [reflexivity|].
  apply (unreadable_device_is_skipped map_to_list (fun m => reflexivity _)
           hw NewGenicamDevice [{| id := 0 |}] [{| id := 2 |}] {| id := 1 |});
    reflexivity.
Defined.

Lemma every_cycle_emits_one_event_witness :
  (∀ m : gmap string (list fingerprintedDevice), map_to_list m ≡ₚ map_to_list m) ∧
  ∃ resp : FingerprintResponse,
    sent (writeFingerprintToChannel map_to_list Examples.hwDown NewGenicamDevice).2 = [resp] ∧
    (∀ k, k ∈ model <$> survivors Examples.hwDown →
          ∃ g, Some g ∈ FpDevices resp ∧ Name g = k ∧ Devices g ≠ []) ∧
    ((GetDevices Examples.hwDown).1.2 ≠ None ∨ (GetDevices Examples.hwDown).1.1 = [] →
     FpDevices resp = []) ∧
    ∀ ticks d0, length (sent (doFingerprint map_to_list ticks d0).2) = length ticks.
Proof.
  split; [intros m; reflexivity|].
  apply (every_cycle_emits_one_event map_to_list). intros m. reflexivity.
Defined.

(** The scenario of two cameras of one model: one group, two members. *)
Example cycle_two_cameras :
  sent (writeFingerprintToChannel map_to_list Examples.hwTwo NewGenicamDevice).2 =
    [NewFingerprint
       [Some {| Vendor := "tis"; Type_ := "genicam"; Name := "camX";
                Devices := [{| ID := "A1"; Healthy := true; HwLocality := None |};
                            {| ID := "A2"; Healthy := true; HwLocality := None |}];
                Attributes := ∅ |}]].
Proof. vm_compute. reflexivity. Qed.

(** The scenario of no camera, and that of a failing enumeration: one
    event with zero groups. *)
Example cycle_no_camera :
  sent (writeFingerprintToChannel map_to_list Examples.hwNone NewGenicamDevice).2 =
    [NewFingerprint []] ∧
  sent (writeFingerprintToChannel map_to_list Examples.hwDown NewGenicamDevice).2 =
    [NewFingerprint []].
Proof. split; vm_compute; reflexivity. Qed.

(** * The lock and the cache *)

(** C3, as stated, fails: in the cycle over no camera the rescan of the
    device list is called while the exclusive lock is held. *)
Lemma enumeration_inside_lock :
  ¬ enumerationOutsideLock
      (writeFingerprintToChannel map_to_list Examples.hwNone NewGenicamDevice).2.
Proof.
  intros H.
  specialize (H [EvLock] EvUpdateDeviceList
                [EvGetNumDevices; EvSend (NewFingerprint []); EvUnlock]).
  by specialize (H eq_refl eq_refl).
Qed.

(** C3, amended.  The cycle takes the exclusive lock first and releases
    it last: its events are the taking of the lock, then a body that
    neither takes nor releases the lock, then the release, and nothing
    after it.  The body holds the rescan, the device count, every
    attribute read, every cache write and the send of the event: each of
    them, and the release itself, happens while the lock is held, and the
    lock is free once the cycle is over. *)
Theorem cycle_holds_lock_throughout
    (range : gmap string (list fingerprintedDevice) →
             list (string * list fingerprintedDevice))
    (hw : ArvLib) (d : GenicamDevice) :
  ∃ body,
    (writeFingerprintToChannel range hw d).2 = EvLock :: body ++ [EvUnlock] ∧
    Forall (fun e => e ≠ EvLock ∧ e ≠ EvUnlock) body ∧
    body = EvUpdateDeviceList :: enumerationTrace hw ++
             ((fun fd => EvStore (serial_nbr fd) (address fd)) <$> survivors hw) ++
             [EvSend (NewFingerprint
                (groupLoop range (mergeLoop (survivors hw) ∅ (devices d)).1.1))] ∧
    (∀ pre e post,
        (writeFingerprintToChannel range hw d).2 = pre ++ e :: post →
        e ≠ EvLock → held pre = true) ∧
    held (writeFingerprintToChannel range hw d).2 = false.
Proof.
  exists (EvUpdateDeviceList :: enumerationTrace hw ++ (storeOf <$> survivors hw) ++
          [EvSend (NewFingerprint
             (groupLoop range (mergeLoop (survivors hw) ∅ (devices d)).1.1))]).
  assert ((writeFingerprintToChannel range hw d).2 =
            EvLock :: (EvUpdateDeviceList :: enumerationTrace hw ++
              (storeOf <$> survivors hw) ++
              [EvSend (NewFingerprint
                 (groupLoop range (mergeLoop (survivors hw) ∅ (devices d)).1.1))])
            ++ [EvUnlock]) as Hshape.
  { rewrite cycle_trace. simpl. by rewrite <- !app_assoc. }
  assert (lockFree (EvUpdateDeviceList :: enumerationTrace hw ++
            (storeOf <$> survivors hw) ++
            [EvSend (NewFingerprint
               (groupLoop range (mergeLoop (survivors hw) ∅ (devices d)).1.1))])) as Hfree.
  { constructor; [done|]. rewrite !Forall_app. split_and!.
    - apply quiet_lockFree, enumeration_quiet.
    - apply Forall_fmap, Forall_true. done.
    - by repeat constructor. }
  split_and!; [exact Hshape|exact Hfree|done| |].
  - rewrite Hshape. set (body := EvUpdateDeviceList :: _) in *. clearbody body.
    intros pre e post Heq He. destruct pre as [|e0 pre].
    + simpl in Heq. congruence.
    + simpl in Heq. injection Heq as <- Heq.
      assert (lockFree pre) as Hpre.
      { apply app_eq_app in Heq as [l [[-> Hl]|[-> Hl]]].
        - by apply Forall_app in Hfree as [? _].
        - destruct l as [|e1 l].
          + by rewrite app_nil_r.
          + injection Hl as <- Hl. by destruct l. }
      change (EvLock :: pre) with ([EvLock] ++ pre). by rewrite held_app.
  - rewrite Hshape. set (body := EvUpdateDeviceList :: _). unfold held.
    change (EvLock :: body ++ [EvUnlock]) with ((EvLock :: body) ++ [EvUnlock]).
    by rewrite foldl_app.
Qed.

Lemma cycle_holds_lock_throughout_witness :
  let t := (writeFingerprintToChannel map_to_list Examples.hwTwo NewGenicamDevice).2 in
  ∃ body,
    t = EvLock :: body ++ [EvUnlock] ∧
    Forall (fun e => e ≠ EvLock ∧ e ≠ EvUnlock) body ∧
    body = EvUpdateDeviceList :: enumerationTrace Examples.hwTwo ++
             ((fun fd => EvStore (serial_nbr fd) (address fd)) <$> survivors Examples.hwTwo) ++
             [EvSend (NewFingerprint
                (groupLoop map_to_list
                   (mergeLoop (survivors Examples.hwTwo) ∅ (devices NewGenicamDevice)).1.1))] ∧
    (∀ pre e post, t = pre ++ e :: post → e ≠ EvLock → held pre = true) ∧
    held t = false.
Proof.
  intros t.
  apply (cycle_holds_lock_throughout map_to_list Examples.hwTwo NewGenicamDevice).
Defined.

(** C4, as stated, fails: after a cycle that finds two cameras and a
    cycle that finds none, the cache still has the two serial numbers as
    keys, while the latest cycle has no surviving device. *)
Lemma cache_keeps_vanished_devices :
  dom (devices (doFingerprint map_to_list [Examples.hwTwo; Examples.hwNone]
                  NewGenicamDevice).1)
    ≠ seen Examples.hwNone.
Proof.
  rewrite doFingerprint_dom. intros Heq.
  assert ("A1" ∈ seen Examples.hwNone) as Hin.
  { rewrite <- Heq. apply elem_of_union. right.
    rewrite fmap_cons, union_list_cons. apply elem_of_union. left.
    apply elem_of_list_to_set. left. }
  apply elem_of_list_to_set in Hin. by apply elem_of_nil in Hin.
Qed.

(** C4, amended.  The cache only grows: after any number of cycles its
    keys are the keys it started with and the serial numbers of the
    surviving devices of all the cycles run so far.  They include the
    serial numbers of the latest cycle's surviving devices, each mapped
    to an address read in that cycle; the serial number of a device that
    vanished before the latest cycle stays a key. *)
Theorem cache_keys_accumulate
    (range : gmap string (list fingerprintedDevice) →
             list (string * list fingerprintedDevice))
    (ticks : list ArvLib) (hw : ArvLib) (d : GenicamDevice) :
  let cache := devices (doFingerprint range (ticks ++ [hw]) d).1 in
  dom cache = dom (devices d) ∪ ⋃ (seen <$> ticks) ∪ seen hw ∧
  ∀ s, s ∈ seen hw →
    ∃ fd, fd ∈ survivors hw ∧ serial_nbr fd = s ∧ cache !! s = Some (address fd).
Proof.
  intros cache. split.
  - unfold cache. rewrite doFingerprint_dom, fmap_app, union_list_app_L. simpl.
    by rewrite (right_id_L ∅ (∪)), (assoc_L (∪)).
  - intros s Hs. unfold cache. rewrite doFingerprint_app. simpl.
    rewrite bind_fst. simpl. rewrite cycle_state. simpl.
    apply upsert_latest. by apply elem_of_list_to_set in Hs.
Qed.

(** * The reservation validator *)

(** What a successful reservation of a non-empty request holds: the two
    entries written for the last identifier of the request. *)
Lemma Reserve_success_envs d s ids :
  enabled d = true → (∀ id, id ∈ s :: ids → is_Some (devices d !! id)) →
  ∃ s' a', last (s :: ids) = Some s' ∧ devices d !! s' = Some a' ∧
    Reserve d (s :: ids) =
      (Some {| Envs := <[deviceAddress := a']> (<[deviceSerialNbr := s']> ∅);
               Mounts := []; ResDevices := [] |}, None).
Proof.
  intros Hen Hall. destruct (Hall s) as [a Ha]; [left|].
  destruct (responseLoop_last (devices d) ids s a emptyReservation Ha)
    as (s' & a' & Hlast & Hs' & Hrun).
  { intros id Hin. apply Hall. by right. }
  exists s', a'. split_and!; [done..|].
  unfold Reserve. rewrite Hen. cbn [length Nat.eqb negb].
  rewrite missingLoop_absent. cbn [app].
  by rewrite (proj2 (absent_nil _ _) Hall).
Qed.

(** C1, at the failing input.  With both cameras cached, the reservation
    of [A1] and [A2] succeeds, but its environment has two entries in
    all, those of [A2]: no entry carries the serial number or the address
    of [A1]. *)
Theorem Reserve_two_devices_keeps_last :
  let d := Examples.configured Examples.cacheTwo in
  ∃ resp, Reserve d ["A1"; "A2"] = (Some resp, None) ∧
    Envs resp = <[deviceAddress := "10.0.0.2"]> (<[deviceSerialNbr := "A2"]> ∅) ∧
    hasEntryFor (devices d) resp "A2" ∧
    ¬ hasEntryFor (devices d) resp "A1" ∧
    ∀ k, Envs resp !! k ≠ Some "A1" ∧ Envs resp !! k ≠ Some "10.0.0.1".
Proof.
  intros d. eexists. split; [vm_compute; reflexivity|]. simpl.
  assert (∀ k v, (<[deviceAddress := "10.0.0.2"]> (<[deviceSerialNbr := "A2"]> ∅)
                    : gmap string string) !! k = Some v → v = "10.0.0.2" ∨ v = "A2") as Hval.
  { intros k v. rewrite lookup_insert. case_decide; [naive_solver|].
    rewrite lookup_insert. case_decide; [naive_solver|]. by rewrite lookup_empty. }
  split_and!.
  - apply map_eq. intros k. vm_compute. reflexivity.
  - exists deviceSerialNbr, deviceAddress, "10.0.0.2". split_and!; reflexivity.
  - intros (k1 & k2 & addr & _ & H1 & _). simpl in H1.
    apply Hval in H1 as [?|?]; discriminate.
  - intros k. split; intros H; simpl in H; apply Hval in H as [?|?]; discriminate.
Qed.

(** C2, as stated, fails: on a plugin that is not enabled, the empty
    request succeeds with an empty reservation. *)
Lemma Reserve_disabled_empty_request :
  enabled NewGenicamDevice = false ∧
  Reserve NewGenicamDevice [] = (Some emptyReservation, None) ∧
  Reserve NewGenicamDevice [] ≠ (None, Some errPluginDisabled).
Proof. split_and!; [reflexivity..|discriminate]. Qed.

(** C2, amended.  If the plugin has not been enabled, every non-empty
    request fails with the "disabled" error, whatever the cache holds; the
    empty request is answered first and succeeds with the empty
    reservation. *)
Theorem Reserve_disabled (d : GenicamDevice) (deviceIDs : list string) :
  enabled d = false →
  Reserve d deviceIDs =
    match deviceIDs with
    | [] => (Some emptyReservation, None)
    | _ :: _ => (None, Some errPluginDisabled)
    end.
Proof. intros Hoff. unfold Reserve. rewrite Hoff. by destruct deviceIDs. Qed.

Lemma Reserve_disabled_witness :
  enabled NewGenicamDevice = false ∧
  Reserve NewGenicamDevice ["A1"; "B9"] = (None, Some errPluginDisabled).
Proof.
  split; [reflexivity|].
  apply (Reserve_disabled NewGenicamDevice ["A1"; "B9"]). reflexivity.
Defined.

(** C5, as stated, fails: on a plugin that is not enabled, a request for
    an identifier that is not cached fails with the "disabled" error,
    which names no identifier. *)
Lemma Reserve_disabled_hides_absent :
  ["B9"] ≠ [] ∧
  (∃ id, id ∈ ["B9"] ∧ devices NewGenicamDevice !! id = None) ∧
  Reserve NewGenicamDevice ["B9"] = (None, Some errPluginDisabled) ∧
  ¬ failsNamingAbsent NewGenicamDevice ["B9"].
Proof.
  split_and!; [done| |reflexivity|].
  - exists "B9". split; [left|reflexivity].
  - intros (e & He & _). discriminate.
Qed.

(** C5, amended.  On an enabled plugin, every non-empty request with at
    least one identifier that is not in the cache fails with the single
    aggregated error and returns no reservation.  The error lists the
    absent identifiers of the request, all of them and only them, in the
    order of the request, and its message contains each of them. *)
Theorem Reserve_names_every_absent (d : GenicamDevice) (deviceIDs : list string) :
  enabled d = true →
  deviceIDs ≠ [] →
  (∃ id, id ∈ deviceIDs ∧ devices d !! id = None) →
  failsNamingAbsent d deviceIDs ∧
  Reserve d deviceIDs =
    (None, Some (errReservation
                   {| notExistingIDs := filter (fun id => devices d !! id = None) deviceIDs |})).
Proof.
  intros Hen Hne (id0 & Hin0 & Hnone0).
  assert (Reserve d deviceIDs =
    (None, Some (errReservation {| notExistingIDs := absent (devices d) deviceIDs |}))) as Hrun.
  { unfold Reserve. rewrite Hen. destruct deviceIDs as [|s rest]; [done|].
    cbn [length Nat.eqb negb]. rewrite missingLoop_absent. cbn [app].
    destruct (absent (devices d) (s :: rest)) as [|x l] eqn:Habs; [|done].
    destruct (proj1 (absent_nil _ _) Habs id0 Hin0) as [a Ha]. congruence. }
  split; [|exact Hrun].
  eexists. split; [exact Hrun|]. intros id Hin Hnone. simpl.
  assert (id ∈ absent (devices d) deviceIDs) as Habs by (by apply list_elem_of_filter).
  split; [done|]. unfold reservationError_Error. simpl.
  by apply mentions_prepend, mentions_concat.
Qed.

Lemma Reserve_names_every_absent_witness :
  let d := Examples.configured Examples.cacheTwo in
  enabled d = true ∧
  ["B9"; "A1"; "Z4"] ≠ [] ∧
  (∃ id, id ∈ ["B9"; "A1"; "Z4"] ∧ devices d !! id = None) ∧
  failsNamingAbsent d ["B9"; "A1"; "Z4"] ∧
  Reserve d ["B9"; "A1"; "Z4"] =
    (None, Some (errReservation
       {| notExistingIDs := filter (fun id => devices d !! id = None) ["B9"; "A1"; "Z4"] |})).
Proof.
  intros d.
  assert (∃ id, id ∈ ["B9"; "A1"; "Z4"] ∧ devices d !! id = None) as Hex.
  { exists "B9". split; [left|reflexivity]. }
  split; [reflexivity|]. split; [discriminate|]. split; [exact Hex|].
  apply (Reserve_names_every_absent d ["B9"; "A1"; "Z4"]);
    [reflexivity|discriminate|exact Hex].
Defined.

(** The scenario of the specification: both absent identifiers are
    named, in the order of the request. *)
Example Reserve_unknown_ids :
  Reserve (Examples.configured Examples.cacheTwo) ["B9"; "A1"; "Z4"] =
    (None, Some (errReservation {| notExistingIDs := ["B9"; "Z4"] |})) ∧
  reservationError_Error {| notExistingIDs := ["B9"; "Z4"] |} = "unknown device IDs: B9,Z4".
Proof. split; vm_compute; reflexivity. Qed.

Lemma responseLoop_checked cache ids resp :
  missingLoop cache ids [] = [] →
  ∃ resp', responseLoop cache ids resp = (Some resp', None).
Proof.
  rewrite missingLoop_absent. cbn [app]. intros Habs.
  apply responseLoop_present, (proj1 (absent_nil _ _) Habs).
Qed.

(** C10.  If the membership pass over a cache finds no missing
    identifier, the second pass over the same cache finds every
    identifier: it returns a response and no error, so it never takes its
    "unknown device" branch. *)
Theorem second_lookup_finds_every_id (cache : gmap string string)
    (deviceIDs : list string) (resp : ContainerReservation) :
  missingLoop cache deviceIDs [] = [] →
  (∃ resp', responseLoop cache deviceIDs resp = (Some resp', None)) ∧
  ∀ c serial, (responseLoop cache deviceIDs resp).2 ≠ Some (errStatus c serial).
Proof.
  intros Hcheck.
  destruct (responseLoop_checked cache deviceIDs resp Hcheck) as [resp' Hrun].
  split; [eauto|]. intros c serial. by rewrite Hrun.
Qed.

Lemma second_lookup_finds_every_id_witness :
  missingLoop Examples.cacheTwo ["A2"; "A1"; "A2"] [] = [] ∧
  (∃ resp', responseLoop Examples.cacheTwo ["A2"; "A1"; "A2"] emptyReservation
            = (Some resp', None)) ∧
  ∀ c serial, (responseLoop Examples.cacheTwo ["A2"; "A1"; "A2"] emptyReservation).2
              ≠ Some (errStatus c serial).
Proof.
  split; [reflexivity|].
  apply (second_lookup_finds_every_id Examples.cacheTwo ["A2"; "A1"; "A2"] emptyReservation).
  reflexivity.
Defined.

(** [Reserve] runs both passes over one cache: it never returns the
    "unknown device" error. *)
Corollary Reserve_never_unknown_device (d : GenicamDevice) (deviceIDs : list string)
    (c : codes) (serial : string) :
  (Reserve d deviceIDs).2 ≠ Some (errStatus c serial).
Proof.
  unfold Reserve. destruct deviceIDs as [|s rest]; [done|].
  cbn [length Nat.eqb]. destruct (enabled d); [|done]. cbn [negb].
  destruct (missingLoop (devices d) (s :: rest) []) as [|x l] eqn:Hmiss; [|done].
  cbn [length Nat.eqb negb].
  destruct (responseLoop_checked (devices d) (s :: rest) emptyReservation Hmiss)
    as [resp' Hrun].
  by rewrite Hrun.
Qed.

(** The branch is there for a cache that changes between the passes: the
    second pass over a cache that lacks an identifier takes it. *)
Example unknown_device_branch :
  missingLoop Examples.cacheTwo ["A1"; "A2"] [] = [] ∧
  responseLoop (delete "A2" Examples.cacheTwo) ["A1"; "A2"] emptyReservation =
    (None, Some (errStatus InvalidArgument "A2")).
Proof. split; vm_compute; reflexivity. Qed.

(** * Further properties of the code *)

(** ** Enumeration *)

Lemma handles_small (n : N) :
  (n < 2 ^ 32)%N →
  handles n = (fun i => {| id := N.of_nat i |}) <$> seq 0 (N.to_nat n).
Proof.
  intros Hn. unfold handles. apply list_fmap_ext. intros i k Hk.
  apply lookup_seq in Hk as [-> Hlt]. simpl.
  unfold C_uint. f_equal. apply N.mod_small. lia.
Qed.

(** X1. When the library reports [n] devices (a C [unsigned int], so
    below 2^32) without an error, [GetDevices] returns no error and
    exactly [n] handles, the i-th of which is the index [i]: the handles
    are pairwise distinct and each is below [n]. *)
Theorem GetDevices_lists_every_index (hw : ArvLib) (n : N) :
  arv_get_n_devices hw = (n, None) →
  (n < 2 ^ 32)%N →
  (GetDevices hw).1.2 = None ∧
  length (GetDevices hw).1.1 = N.to_nat n ∧
  (∀ i, i < N.to_nat n → (GetDevices hw).1.1 !! i = Some {| id := N.of_nat i |}) ∧
  NoDup (GetDevices hw).1.1 ∧
  ∀ dev, dev ∈ (GetDevices hw).1.1 → (id dev < n)%N.
Proof.
  intros Hcount Hn.
  assert ((GetDevices hw).1 = (handles n, None)) as ->.
  { unfold GetDevices, GetNumDevices, bind. simpl. by rewrite Hcount. }
  simpl. rewrite (handles_small n Hn). split_and!.
  - done.
  - by rewrite length_fmap, length_seq.
  - intros i Hi. rewrite list_lookup_fmap, lookup_seq_lt by done. done.
  - apply NoDup_fmap_2; [|apply NoDup_seq].
    intros i j [= Hij]. by apply Nat2N.inj.
  - intros dev (i & -> & Hi)%list_elem_of_fmap. apply elem_of_seq in Hi. simpl. lia.
Qed.

Lemma GetDevices_lists_every_index_witness :
  arv_get_n_devices Examples.hwThree = (3%N, None) ∧
  (3 < 2 ^ 32)%N ∧
  (GetDevices Examples.hwThree).1.2 = None ∧
  length (GetDevices Examples.hwThree).1.1 = N.to_nat 3 ∧
  (∀ i, i < N.to_nat 3 →
        (GetDevices Examples.hwThree).1.1 !! i = Some {| id := N.of_nat i |}) ∧
  NoDup (GetDevices Examples.hwThree).1.1 ∧
  ∀ dev, dev ∈ (GetDevices Examples.hwThree).1.1 → (id dev < 3)%N.
Proof.
  split; [reflexivity|]. split; [reflexivity|].
  apply (GetDevices_lists_every_index Examples.hwThree 3%N); reflexivity.
Defined.

Lemma with_devices_same d : with_devices d (devices d) = d.
Proof. by destruct d. Qed.

(** X2. When the device count cannot be read, the cycle reads no
    attribute and writes nothing: it takes the lock, asks for a rescan and
    for the count, logs the failure, sends one event without groups and
    releases the lock, and the plugin is left as it was. *)
Theorem failed_enumeration_cycle
    (range : gmap string (list fingerprintedDevice) →
             list (string * list fingerprintedDevice))
    (hw : ArvLib) (d : GenicamDevice) (n : N) (err : Errno) :
  (∀ m, range m ≡ₚ map_to_list m) →
  arv_get_n_devices hw = (n, Some err) →
  writeFingerprintToChannel range hw d =
    (d, [EvLock; EvUpdateDeviceList; EvGetNumDevices;
         EvLogError "failed to get devices"; EvSend (NewFingerprint []); EvUnlock]).
Proof.
  intros Hperm Hcount.
  assert (GetDevices hw = (([], Some err), [EvGetNumDevices])) as Hget.
  { unfold GetDevices, GetNumDevices, bind. simpl. by rewrite Hcount. }
  unfold writeFingerprintToChannel, UpdateDeviceList, bind. rewrite Hget. simpl.
  unfold groupLoop. rewrite (range_empty range Hperm). simpl.
  by rewrite with_devices_same.
Qed.

Lemma failed_enumeration_cycle_witness :
  (∀ m : gmap string (list fingerprintedDevice), map_to_list m ≡ₚ map_to_list m) ∧
  arv_get_n_devices Examples.hwDown = (0%N, Some 19%N) ∧
  writeFingerprintToChannel map_to_list Examples.hwDown (Examples.configured Examples.cacheTwo) =
    (Examples.configured Examples.cacheTwo,
     [EvLock; EvUpdateDeviceList; EvGetNumDevices;
      EvLogError "failed to get devices"; EvSend (NewFingerprint []); EvUnlock]).
Proof.
  split; [intros m; reflexivity|]. split; [reflexivity|].
  apply (failed_enumeration_cycle map_to_list Examples.hwDown
           (Examples.configured Examples.cacheTwo) 0%N 19%N);
    [intros m; reflexivity|reflexivity].
Defined.

(** X3. The attributes of a handle are read in a fixed order and the
    reading stops at the first failure: the events of one loop body are
    the reads up to and including the first failing attribute, then the
    error line of that attribute; or all seven reads, then the debug
    line.  The handle yields a descriptor exactly when no read fails. *)
Theorem discoverOne_stops_at_first_failure (hw : ArvLib) (dev : ArvDevice) :
  (discoverOne hw dev).2 =
    match firstFailure hw dev with
    | Some (k, a) =>
        (EvReadAttribute (id dev) <$> take (S k) attributes) ++ [EvLogError (failureMessage a)]
    | None =>
        (EvReadAttribute (id dev) <$> attributes) ++ [EvLogDebug "found device"]
    end ∧
  (discoverOne hw dev).1 =
    match firstFailure hw dev with
    | Some _ => None
    | None => Some (descriptor hw dev)
    end.
Proof.
  unfold firstFailure, descriptor, discoverOne, Id, PhysicalId, Model, SerialNbr,
    GetVendor, Address, Protocol, readAttribute, attributes, bind. simpl.
  destruct (arv_get_device_id hw (id dev)) as [? [?|]]; [by split|].
  destruct (arv_get_device_physical_id hw (id dev)) as [? [?|]]; [by split|].
  destruct (arv_get_device_model hw (id dev)) as [? [?|]]; [by split|].
  destruct (arv_get_device_serial_nbr hw (id dev)) as [? [?|]]; [by split|].
  destruct (arv_get_device_vendor hw (id dev)) as [? [?|]]; [by split|].
  destruct (arv_get_device_address hw (id dev)) as [? [?|]]; [by split|].
  destruct (arv_get_device_protocol hw (id dev)) as [? [?|]]; by split.
Qed.

Lemma omap_filter_fmap {A B} (f : A → option B) (g : A → B) (p : A → bool) (l : list A) :
  (∀ x, f x = if p x then Some (g x) else None) →
  omap f l = g <$> filter (fun x => p x = true) l.
Proof.
  intros Hf. induction l as [|x l IH]; [done|].
  change (omap f (x :: l)) with (match f x with Some y => y :: omap f l | None => omap f l end).
  rewrite filter_cons, Hf, IH. destruct (p x) eqn:Hp.
  - by rewrite decide_True by done.
  - by rewrite decide_False by done.
Qed.

(** X4. The devices that survive a cycle are the handles all of whose
    seven reads succeed, in the order of the handles, each with the seven
    values the library returned; so there are at most as many as handles. *)
Theorem survivors_are_readable_handles (hw : ArvLib) :
  survivors hw =
    descriptor hw <$> filter (fun dev => negb (readFails hw dev) = true) (GetDevices hw).1.1 ∧
  (length (survivors hw) ≤ length (GetDevices hw).1.1)%nat.
Proof.
  assert (survivors hw =
    descriptor hw <$> filter (fun dev => negb (readFails hw dev) = true) (GetDevices hw).1.1)
    as Heq.
  { unfold survivors. rewrite discoverLoop_fst. simpl.
    apply omap_filter_fmap. intros dev. destruct (readFails hw dev) eqn:Hr; simpl.
    - by apply discoverOne_fails.
    - by apply discoverOne_reads. }
  split; [done|]. rewrite Heq, length_fmap. apply length_filter.
Qed.

(** ** The poll cycle *)

Lemma stores_not_enumeration (ds : list fingerprintedDevice) (tl : list event) :
  Forall (fun e => isEnumeration e = false) tl →
  Forall (fun e => isEnumeration e = false) ((storeOf <$> ds) ++ tl).
Proof.
  intros Htl. apply Forall_app. split; [|done].
  apply Forall_fmap, Forall_true. done.
Qed.

Lemma Forall_suffix {A} (P : A → Prop) (l pre post : list A) (x : A) :
  l = pre ++ x :: post → Forall P l → Forall P post.
Proof. intros -> [_ H]%Forall_app. by apply Forall_cons in H as [_ ?]. Qed.

(** X5. Within a cycle the cache is written only after the enumeration
    is over: once a cache write has happened, the cycle makes no further
    call into the library (no rescan, no count, no attribute read). *)
Theorem no_enumeration_after_store
    (range : gmap string (list fingerprintedDevice) →
             list (string * list fingerprintedDevice))
    (hw : ArvLib) (d : GenicamDevice) (pre post : list event) (s a : string) :
  (writeFingerprintToChannel range hw d).2 = pre ++ EvStore s a :: post →
  Forall (fun e => isEnumeration e = false) post.
Proof.
  rewrite cycle_trace, (assoc_L (++)).
  set (head := [EvLock; EvUpdateDeviceList] ++ enumerationTrace hw).
  set (tail := (storeOf <$> survivors hw) ++ _).
  assert (Forall (fun e => isEnumeration e = false) tail) as Htail.
  { apply stores_not_enumeration. by repeat constructor. }
  assert (EvStore s a ∉ head) as Hhead.
  { unfold head. intros [Hin|Hin]%elem_of_app.
    - apply elem_of_cons in Hin as [?|Hin]; [done|].
      apply elem_of_cons in Hin as [?|Hin]; [done|]. by apply elem_of_nil in Hin.
    - pose proof (enumeration_quiet hw) as Hq.
      rewrite Forall_forall in Hq. by apply Hq in Hin. }
  intros Heq. apply app_eq_app in Heq as [l [[-> Hl]|[-> Hl]]].
  - destruct l as [|e l].
    + simpl in Hl. by eapply Forall_suffix with (pre := []).
    + injection Hl as <- _. exfalso. apply Hhead.
      apply elem_of_app. right. left.
  - by eapply Forall_suffix.
Qed.

Lemma no_enumeration_after_store_witness :
  let t := (writeFingerprintToChannel map_to_list Examples.hwTwo NewGenicamDevice).2 in
  let pre := take 19 t in
  let post := drop 20 t in
  t = pre ++ EvStore "A1" "10.0.0.1" :: post ∧
  Forall (fun e => isEnumeration e = false) post.
Proof.
  intros t pre post. split; [vm_compute; reflexivity|].
  apply (no_enumeration_after_store map_to_list Examples.hwTwo NewGenicamDevice
           pre post "A1" "10.0.0.1").
  vm_compute. reflexivity.
Defined.

Lemma upsert_union (cache : gmap string string) (ds : list fingerprintedDevice) :
  foldl upsert cache ds = foldl upsert ∅ ds ∪ cache.
Proof.
  induction ds as [|fd ds IH] using rev_ind.
  - simpl. by rewrite (left_id_L ∅ (∪)).
  - rewrite !foldl_app. simpl. unfold upsert at 1 3. rewrite IH.
    by rewrite insert_union_l.
Qed.

(** X6. A cycle changes nothing of the plugin but the cache, and the new
    cache is the old one overridden by what the cycle wrote: a serial
    number the cycle read maps to an address the cycle read for it, and
    every other key keeps its old address. *)
Theorem cycle_overrides_cache
    (range : gmap string (list fingerprintedDevice) →
             list (string * list fingerprintedDevice))
    (hw : ArvLib) (d : GenicamDevice) :
  let d' := (writeFingerprintToChannel range hw d).1 in
  enabled d' = enabled d ∧
  fingerprintPeriod d' = fingerprintPeriod d ∧
  devices d' = entries hw ∪ devices d ∧
  dom (entries hw) = seen hw ∧
  (∀ s, s ∈ seen hw →
        ∃ fd, fd ∈ survivors hw ∧ serial_nbr fd = s ∧ devices d' !! s = Some (address fd)) ∧
  ∀ s, s ∉ seen hw → devices d' !! s = devices d !! s.
Proof.
  intros d'. unfold d'. rewrite cycle_state. simpl.
  assert (dom (entries hw) = seen hw) as Hdom.
  { unfold entries, seen. rewrite upsert_dom, dom_empty_L. by rewrite (left_id_L ∅ (∪)). }
  split_and!; [done|done|apply upsert_union|done| |].
  { intros s Hs. apply upsert_latest. by apply elem_of_list_to_set in Hs. }
  intros s Hs. rewrite upsert_union. apply lookup_union_r.
  apply not_elem_of_dom. change (foldl upsert ∅ (survivors hw)) with (entries hw).
  by rewrite Hdom.
Qed.

(** X7. A second cycle over hardware that answers as in the first
    leaves the cache as the first cycle left it. *)
Theorem cycle_idempotent_on_cache
    (range1 range2 : gmap string (list fingerprintedDevice) →
                     list (string * list fingerprintedDevice))
    (hw : ArvLib) (d : GenicamDevice) :
  (writeFingerprintToChannel range2 hw (writeFingerprintToChannel range1 hw d).1).1 =
    (writeFingerprintToChannel range1 hw d).1.
Proof.
  rewrite !cycle_state. unfold with_devices. simpl. f_equal.
  rewrite (upsert_union (foldl upsert (devices d) (survivors hw))).
  rewrite (upsert_union (devices d)).
  by rewrite (assoc_L (∪)), (idemp_L (∪)).
Qed.

Lemma sameButGroupOrder_refl (t : list event) : Forall2 sameButGroupOrder t t.
Proof. apply Forall_Forall2_diag, Forall_true. intros e. destruct e; simpl; reflexivity. Qed.

(** X8. What a cycle does is not decided by what the plugin holds.
    With one order of visiting the map of models, the events of a cycle
    (the calls into the library, the log lines, the cache writes and the
    event that is sent) are the same whether the plugin is enabled or
    not and whatever is cached.  With two orders of visiting the map, the
    events still agree one by one, but for the order of the groups in the
    event that is sent: that order is all that depends on anything other
    than the answers of the hardware. *)
Theorem cycle_trace_ignores_plugin
    (range1 range2 : gmap string (list fingerprintedDevice) →
                     list (string * list fingerprintedDevice))
    (hw : ArvLib) (d1 d2 : GenicamDevice) :
  (∀ m, range1 m ≡ₚ map_to_list m) →
  (∀ m, range2 m ≡ₚ map_to_list m) →
  (writeFingerprintToChannel range1 hw d1).2 = (writeFingerprintToChannel range1 hw d2).2 ∧
  Forall2 sameButGroupOrder
    (writeFingerprintToChannel range1 hw d1).2 (writeFingerprintToChannel range2 hw d2).2.
Proof.
  intros H1 H2. split.
  - rewrite !cycle_trace.
    by rewrite (mergeLoop_groups_cache (survivors hw) (devices d1) (devices d2)).
  - rewrite !cycle_trace.
    rewrite (mergeLoop_groups_cache (survivors hw) (devices d1) (devices d2)).
    repeat (apply Forall2_app; [apply sameButGroupOrder_refl|]).
    constructor; [|apply sameButGroupOrder_refl].
    simpl. unfold groupLoop. apply fmap_Permutation. by rewrite H1, H2.
Qed.

Lemma cycle_trace_ignores_plugin_witness :
  let r1 := fun m : gmap string (list fingerprintedDevice) => reverse (map_to_list m) in
  let d1 := NewGenicamDevice in
  let d2 := Examples.configured Examples.cacheTwo in
  (∀ m, r1 m ≡ₚ map_to_list m) ∧
  (∀ m : gmap string (list fingerprintedDevice), map_to_list m ≡ₚ map_to_list m) ∧
  (writeFingerprintToChannel r1 Examples.hwThree d1).2 =
    (writeFingerprintToChannel r1 Examples.hwThree d2).2 ∧
  Forall2 sameButGroupOrder
    (writeFingerprintToChannel r1 Examples.hwThree d1).2
    (writeFingerprintToChannel map_to_list Examples.hwThree d2).2.
Proof.
  intros r1 d1 d2.
  split; [intros m; apply reverse_Permutation|]. split; [intros m; reflexivity|].
  apply (cycle_trace_ignores_plugin r1 map_to_list Examples.hwThree d1 d2);
    [intros m; apply reverse_Permutation|intros m; reflexivity].
Defined.

(** The order of the groups does depend on the order of the visit. *)
Example cycle_trace_group_order :
  (writeFingerprintToChannel (fun m => reverse (map_to_list m))
     Examples.hwThree NewGenicamDevice).2 ≠
  (writeFingerprintToChannel map_to_list Examples.hwThree NewGenicamDevice).2.
Proof. vm_compute. discriminate. Qed.

(** ** The polling loop *)

Lemma occurrences_app p t1 t2 :
  occurrences p (t1 ++ t2) = occurrences p t1 + occurrences p t2.
Proof. unfold occurrences. by rewrite filter_app, length_app. Qed.

Lemma occurrences_none p t : Forall (fun e => p e = false) t → occurrences p t = 0.
Proof.
  unfold occurrences. induction 1 as [|e t He _ IH]; [done|].
  rewrite filter_cons, decide_False by congruence. done.
Qed.

Lemma cycle_shape range hw d :
  ∃ mid, (writeFingerprintToChannel range hw d).2 = [EvLock] ++ mid ++ [EvUnlock] ∧
         Forall (fun e => isLock e = false) mid ∧
         Forall (fun e => isUnlock e = false) mid ∧
         Forall (fun e => isClose e = false) mid.
Proof.
  exists (EvUpdateDeviceList :: enumerationTrace hw ++ (storeOf <$> survivors hw) ++
          [EvSend (NewFingerprint
             (groupLoop range (mergeLoop (survivors hw) ∅ (devices d)).1.1))]).
  split; [rewrite cycle_trace; simpl; by rewrite <- !app_assoc|].
  assert (∀ p : event → bool,
    (∀ e, quiet e → p e = false) → (∀ s a, p (EvStore s a) = false) →
    (∀ r, p (EvSend r) = false) →
    Forall (fun e => p e = false)
      (EvUpdateDeviceList :: enumerationTrace hw ++ (storeOf <$> survivors hw) ++
       [EvSend (NewFingerprint
          (groupLoop range (mergeLoop (survivors hw) ∅ (devices d)).1.1))])) as Hall.
  { intros p Hq Hs Hr. constructor; [by apply Hq|]. rewrite !Forall_app. split_and!.
    - eapply Forall_impl; [apply enumeration_quiet|done].
    - apply Forall_fmap, Forall_true. intros fd. apply Hs.
    - repeat constructor. apply Hr. }
  split_and!; apply Hall; try done; by intros [].
Qed.

Lemma held_cycle range hw d t :
  held ((writeFingerprintToChannel range hw d).2 ++ t) = held t.
Proof.
  destruct (cycle_shape range hw d) as (mid & -> & _).
  unfold held. rewrite !foldl_app. done.
Qed.

(** X9. The polling loop closes the channel once, as its very last
    event, with the lock released; before that it has taken and released
    the lock once per cycle that ran. *)
Theorem doFingerprint_closes_last
    (range : gmap string (list fingerprintedDevice) →
             list (string * list fingerprintedDevice))
    (ticks : list ArvLib) (d : GenicamDevice) :
  ∃ t, (doFingerprint range ticks d).2 = t ++ [EvClose] ∧
       occurrences isClose t = 0 ∧
       occurrences isLock t = length ticks ∧
       occurrences isUnlock t = length ticks ∧
       held t = false.
Proof.
  revert d. induction ticks as [|hw ticks IH]; intros d.
  - exists []. done.
  - cbn [doFingerprint]. rewrite bind_snd.
    destruct (IH (writeFingerprintToChannel range hw d).1) as (t & -> & Hc & Hl & Hu & Hh).
    exists ((writeFingerprintToChannel range hw d).2 ++ t).
    split; [by rewrite app_assoc|].
    rewrite held_cycle, !occurrences_app, Hc, Hl, Hu.
    destruct (cycle_shape range hw d) as (mid & -> & Hml & Hmu & Hmc).
    rewrite !occurrences_app.
    rewrite (occurrences_none isLock mid), (occurrences_none isUnlock mid),
      (occurrences_none isClose mid) by done.
    done.
Qed.

(** ** More on the groups *)

(** X10. The groups of the event of a cycle do not depend on the order
    in which the map of models is visited: two orders give the same
    groups, in a different order at most. *)
Theorem groups_up_to_order
    (range1 range2 : gmap string (list fingerprintedDevice) →
                     list (string * list fingerprintedDevice))
    (hw : ArvLib) (d : GenicamDevice) :
  (∀ m, range1 m ≡ₚ map_to_list m) →
  (∀ m, range2 m ≡ₚ map_to_list m) →
  ∃ gs1 gs2,
    sent (writeFingerprintToChannel range1 hw d).2 = [NewFingerprint gs1] ∧
    sent (writeFingerprintToChannel range2 hw d).2 = [NewFingerprint gs2] ∧
    gs1 ≡ₚ gs2.
Proof.
  intros H1 H2. do 2 eexists. rewrite !cycle_sent. split_and!; [done..|].
  unfold groupLoop. apply fmap_Permutation. by rewrite H1, H2.
Qed.

Lemma groups_up_to_order_witness :
  (∀ m : gmap string (list fingerprintedDevice), reverse (map_to_list m) ≡ₚ map_to_list m) ∧
  (∀ m : gmap string (list fingerprintedDevice), map_to_list m ≡ₚ map_to_list m) ∧
  ∃ gs1 gs2,
    sent (writeFingerprintToChannel (fun m => reverse (map_to_list m))
            Examples.hwThree NewGenicamDevice).2 = [NewFingerprint gs1] ∧
    sent (writeFingerprintToChannel map_to_list Examples.hwThree NewGenicamDevice).2 =
      [NewFingerprint gs2] ∧
    gs1 ≡ₚ gs2.
Proof.
  split; [intros m; apply reverse_Permutation|]. split; [intros m; reflexivity|].
  apply (groups_up_to_order (fun m => reverse (map_to_list m)) map_to_list
           Examples.hwThree NewGenicamDevice);
    [intros m; apply reverse_Permutation|intros m; reflexivity].
Defined.



(** ** More on reservations *)

Lemma Reserve_no_error d ids :
  (Reserve d ids).2 = None ↔
  ids = [] ∨ (enabled d = true ∧ ∀ id, id ∈ ids → is_Some (devices d !! id)).
Proof.
  unfold Reserve. destruct ids as [|s rest]; [by split; [left|]|].
  cbn [length Nat.eqb]. destruct (enabled d); cbn [negb].
  - rewrite missingLoop_absent. cbn [app].
    destruct (absent (devices d) (s :: rest)) as [|x l] eqn:Habs; cbn [length Nat.eqb negb].
    + pose proof (proj1 (absent_nil _ _) Habs) as Hall.
      destruct (responseLoop_present (devices d) (s :: rest) emptyReservation Hall)
        as [resp ->].
      split; [by right|done].
    + split; [done|]. intros [?|[_ Hall]]; [done|].
      apply absent_nil in Hall. congruence.
  - split; [done|]. by intros [?|[? _]].
Qed.

Lemma Reserve_one_result d ids :
  is_Some (Reserve d ids).1 ↔ (Reserve d ids).2 = None.
Proof.
  unfold Reserve. destruct ids as [|s rest]; [by split; [|eexists]|].
  cbn [length Nat.eqb]. destruct (enabled d); cbn [negb].
  - destruct (missingLoop (devices d) (s :: rest) []) as [|x l] eqn:Hmiss;
      cbn [length Nat.eqb negb].
    + destruct (responseLoop_checked (devices d) (s :: rest) emptyReservation Hmiss)
        as [resp ->].
      by split; [|eexists].
    + split; [by intros [? ?]|done].
  - split; [by intros [? ?]|done].
Qed.

(** X12. [Reserve] returns either a reservation or an error, never both
    and never neither.  It returns a reservation exactly when the request
    is empty, or the plugin is enabled and every requested identifier is
    a key of the cache. *)
Theorem Reserve_succeeds_iff (d : GenicamDevice) (deviceIDs : list string) :
  (is_Some (Reserve d deviceIDs).1 ↔ (Reserve d deviceIDs).2 = None) ∧
  (is_Some (Reserve d deviceIDs).1 ↔
     deviceIDs = [] ∨
     (enabled d = true ∧ ∀ id, id ∈ deviceIDs → is_Some (devices d !! id))).
Proof.
  split; [apply Reserve_one_result|].
  rewrite Reserve_one_result. apply Reserve_no_error.
Qed.

Lemma envs_two_entries (s a : string) :
  size (<[deviceAddress := a]> (<[deviceSerialNbr := s]> (∅ : gmap string string))) = 2.
Proof.
  rewrite map_size_insert_None.
  - by rewrite map_size_insert_None, map_size_empty.
  - by rewrite lookup_insert_ne.
Qed.

(** X13. On an enabled plugin, a request whose identifiers are all
    cached is answered for its last identifier alone: whatever comes
    before it, the environment holds two entries, that identifier under
    the serial-number variable and its cached address under the address
    variable; no mount and no device node is returned. *)
Theorem Reserve_answers_for_last_id (d : GenicamDevice) (before : list string)
    (s a : string) :
  enabled d = true →
  (∀ id, id ∈ before → is_Some (devices d !! id)) →
  devices d !! s = Some a →
  Reserve d (before ++ [s]) =
    (Some {| Envs := <[deviceAddress := a]> (<[deviceSerialNbr := s]> ∅);
             Mounts := []; ResDevices := [] |}, None) ∧
  Reserve d (before ++ [s]) = Reserve d [s] ∧
  size (<[deviceAddress := a]> (<[deviceSerialNbr := s]> (∅ : gmap string string))) = 2.
Proof.
  intros Hen Hall Hs.
  assert (∀ l, (∀ id, id ∈ l → is_Some (devices d !! id)) →
    Reserve d (l ++ [s]) =
      (Some {| Envs := <[deviceAddress := a]> (<[deviceSerialNbr := s]> ∅);
               Mounts := []; ResDevices := [] |}, None)) as Hrun.
  { intros l Hl.
    assert (∀ id, id ∈ l ++ [s] → is_Some (devices d !! id)) as Hl'.
    { intros id [?|Hin]%elem_of_app; [by apply Hl|].
      apply list_elem_of_singleton in Hin as ->. by eexists. }
    destruct (l ++ [s]) as [|x rest] eqn:Heq; [by destruct l|].
    destruct (Reserve_success_envs d x rest Hen Hl') as (s' & a' & Hlast & Hs' & ->).
    rewrite <- Heq, last_snoc in Hlast. injection Hlast as <-.
    rewrite Hs in Hs'. by injection Hs' as <-. }
  split_and!.
  - by apply Hrun.
  - rewrite (Hrun before Hall). symmetry. apply (Hrun []). by intros ? ?%elem_of_nil.
  - apply envs_two_entries.
Qed.

Lemma Reserve_answers_for_last_id_witness :
  let d := Examples.configured Examples.cacheTwo in
  enabled d = true ∧
  (∀ id, id ∈ ["A2"; "A2"] → is_Some (devices d !! id)) ∧
  devices d !! "A1" = Some "10.0.0.1" ∧
  Reserve d (["A2"; "A2"] ++ ["A1"]) =
    (Some {| Envs := <[deviceAddress := "10.0.0.1"]> (<[deviceSerialNbr := "A1"]> ∅);
             Mounts := []; ResDevices := [] |}, None) ∧
  Reserve d (["A2"; "A2"] ++ ["A1"]) = Reserve d ["A1"] ∧
  size (<[deviceAddress := "10.0.0.1"]> (<[deviceSerialNbr := "A1"]> (∅ : gmap string string))) = 2.
Proof.
  intros d.
  assert (∀ id, id ∈ ["A2"; "A2"] → is_Some (devices d !! id)) as Hall.
  { intros id Hin. apply elem_of_cons in Hin as [->|Hin]; [by eexists|].
    apply elem_of_cons in Hin as [->|Hin]; [by eexists|]. by apply elem_of_nil in Hin. }
  split; [reflexivity|]. split; [exact Hall|]. split; [reflexivity|].
  apply (Reserve_answers_for_last_id d ["A2"; "A2"] "A1" "10.0.0.1");
    [reflexivity|exact Hall|reflexivity].
Defined.

(** X14. Once a cycle has run on an enabled plugin, the reservation of
    any serial number the cycle read succeeds, and it returns that serial
    number with an address the same cycle read for it. *)
Theorem Reserve_after_cycle
    (range : gmap string (list fingerprintedDevice) →
             list (string * list fingerprintedDevice))
    (hw : ArvLib) (d : GenicamDevice) (s : string) :
  enabled d = true →
  s ∈ seen hw →
  ∃ fd, fd ∈ survivors hw ∧ serial_nbr fd = s ∧
    Reserve (writeFingerprintToChannel range hw d).1 [s] =
      (Some {| Envs := <[deviceAddress := address fd]> (<[deviceSerialNbr := s]> ∅);
               Mounts := []; ResDevices := [] |}, None).
Proof.
  intros Hen Hs. rewrite cycle_state.
  destruct (upsert_latest (devices d) (survivors hw) s) as (fd & Hfd & Hser & Hlook).
  { by apply elem_of_list_to_set in Hs. }
  exists fd. split_and!; [done..|].
  unfold Reserve. simpl. rewrite Hen. simpl. by rewrite Hlook.
Qed.

Lemma Reserve_after_cycle_witness :
  let d := Examples.configured ∅ in
  enabled d = true ∧
  "C3" ∈ seen Examples.hwThree ∧
  ∃ fd, fd ∈ survivors Examples.hwThree ∧ serial_nbr fd = "C3" ∧
    Reserve (writeFingerprintToChannel map_to_list Examples.hwThree d).1 ["C3"] =
      (Some {| Envs := <[deviceAddress := address fd]> (<[deviceSerialNbr := "C3"]> ∅);
               Mounts := []; ResDevices := [] |}, None).
Proof.
  intros d.
  assert ("C3" ∈ seen Examples.hwThree) as Hin.
  { apply elem_of_list_to_set. right. left. }
  split; [reflexivity|]. split; [exact Hin|].
  apply (Reserve_after_cycle map_to_list Examples.hwThree d "C3"); [reflexivity|exact Hin].
Defined.

Lemma doFingerprint_enabled range ticks d :
  enabled (doFingerprint range ticks d).1 = enabled d.
Proof.
  revert d. induction ticks as [|hw ticks IH]; intros d; [done|].
  cbn [doFingerprint]. rewrite bind_fst, IH, cycle_state. done.
Qed.

(** X15. The polling loop never turns a successful reservation into a
    failing one: a request that [Reserve] grants is still granted after
    any number of cycles, whatever the hardware answers in them. *)
Theorem Reserve_survives_cycles
    (range : gmap string (list fingerprintedDevice) →
             list (string * list fingerprintedDevice))
    (ticks : list ArvLib) (d : GenicamDevice) (deviceIDs : list string) :
  (Reserve d deviceIDs).2 = None →
  (Reserve (doFingerprint range ticks d).1 deviceIDs).2 = None.
Proof.
  rewrite !Reserve_no_error. intros [->|[Hen Hall]]; [by left|]. right.
  split; [by rewrite doFingerprint_enabled|].
  intros id Hin. apply elem_of_dom. rewrite doFingerprint_dom.
  apply elem_of_union. left. apply elem_of_dom. by apply Hall.
Qed.

Lemma Reserve_survives_cycles_witness :
  let d := Examples.configured Examples.cacheTwo in
  (Reserve d ["A1"; "A2"]).2 = None ∧
  (Reserve (doFingerprint map_to_list [Examples.hwNone; Examples.hwDown; Examples.hwThree] d).1
     ["A1"; "A2"]).2 = None.
Proof.
  intros d. split; [reflexivity|].
  apply (Reserve_survives_cycles map_to_list
           [Examples.hwNone; Examples.hwDown; Examples.hwThree] d ["A1"; "A2"]).
  reflexivity.
Defined.

(** ** The message of the aggregated error *)

Lemma commaFree_cons c s :
  commaFree (String c s) = true → c ≠ Ascii.ascii_of_nat 44 ∧ commaFree s = true.
Proof.
  simpl. destruct (Ascii.eqb c (Ascii.ascii_of_nat 44)) eqn:Hc; [done|].
  intros ?. split; [|done]. intros ->. by rewrite Ascii.eqb_refl in Hc.
Qed.

(** Where an identifier ends in the joined text: at the end of the text
    or before a comma. *)
Lemma split_at_comma (x y r1 r2 : string) :
  commaFree x = true → commaFree y = true →
  (r1 = "" ∨ ∃ r, r1 = String (Ascii.ascii_of_nat 44) r) →
  (r2 = "" ∨ ∃ r, r2 = String (Ascii.ascii_of_nat 44) r) →
  x +:+ r1 = y +:+ r2 → x = y ∧ r1 = r2.
Proof.
  revert y. induction x as [|c x IH]; intros y Hx Hy H1 H2 Heq.
  - destruct y as [|c' y]; [done|]. apply commaFree_cons in Hy as [Hc _].
    change ("" +:+ r1) with r1 in Heq.
    change (String c' y +:+ r2) with (String c' (y +:+ r2)) in Heq.
    destruct H1 as [->|[r ->]]; [done|]. injection Heq as <- _. done.
  - apply commaFree_cons in Hx as [Hc Hx]. destruct y as [|c' y].
    + change ("" +:+ r2) with r2 in Heq.
      change (String c x +:+ r1) with (String c (x +:+ r1)) in Heq.
      destruct H2 as [->|[r ->]]; [done|]. injection Heq as -> _. done.
    + apply commaFree_cons in Hy as [_ Hy].
      change (String c x +:+ r1 = String c' y +:+ r2)
        with (String c (x +:+ r1) = String c' (y +:+ r2)) in Heq.
      injection Heq as <- Heq. destruct (IH y Hx Hy H1 H2 Heq) as [-> ->]. done.
Qed.

Lemma concat_cons_rest (x : string) (l : list string) :
  String.concat "," (x :: l) =
    x +:+ match l with [] => "" | _ :: _ => String (Ascii.ascii_of_nat 44) (String.concat "," l) end.
Proof. destruct l; [by rewrite string_app_nil_r|done]. Qed.

Lemma concat_comma_inj (l1 l2 : list string) :
  l1 ≠ [] → l2 ≠ [] →
  Forall (fun s => commaFree s = true) l1 → Forall (fun s => commaFree s = true) l2 →
  String.concat "," l1 = String.concat "," l2 → l1 = l2.
Proof.
  revert l2. induction l1 as [|x l1 IH]; intros l2 Hn1 Hn2 Hf1 Hf2 Heq; [done|].
  destruct l2 as [|y l2]; [done|].
  apply Forall_cons in Hf1 as [Hx Hf1]. apply Forall_cons in Hf2 as [Hy Hf2].
  rewrite !concat_cons_rest in Heq.
  apply split_at_comma in Heq as [-> Hrest]; [|done|done|destruct l1; eauto|destruct l2; eauto].
  f_equal. destruct l1 as [|x1 l1], l2 as [|y2 l2]; [done|done|done|].
  injection Hrest as Hrest. by apply IH.
Qed.

(** X16. The message of the aggregated error tells which identifiers are
    missing: when no identifier holds a comma, two errors with the same
    message list the same identifiers in the same order. *)
Theorem reservationError_message_inj (e1 e2 : reservationError) :
  notExistingIDs e1 ≠ [] → notExistingIDs e2 ≠ [] →
  Forall (fun s => commaFree s = true) (notExistingIDs e1) →
  Forall (fun s => commaFree s = true) (notExistingIDs e2) →
  reservationError_Error e1 = reservationError_Error e2 →
  e1 = e2.
Proof.
  destruct e1 as [l1], e2 as [l2]. unfold reservationError_Error. simpl.
  intros Hn1 Hn2 Hf1 Hf2 Heq. f_equal.
  apply (inj (String.app "unknown device IDs: ")) in Heq.
  by apply concat_comma_inj.
Qed.

Lemma reservationError_message_inj_witness :
  let e1 := {| notExistingIDs := ["B9"; "Z4"] |} in
  let e2 := {| notExistingIDs := absent Examples.cacheTwo ["B9"; "A1"; "Z4"; "A2"] |} in
  notExistingIDs e1 ≠ [] ∧ notExistingIDs e2 ≠ [] ∧
  Forall (fun s => commaFree s = true) (notExistingIDs e1) ∧
  Forall (fun s => commaFree s = true) (notExistingIDs e2) ∧
  reservationError_Error e1 = reservationError_Error e2 ∧
  e1 = e2.
Proof.
  intros e1 e2.
  assert (Forall (fun s => commaFree s = true) (notExistingIDs e1)) as Hf1
    by (repeat constructor).
  assert (Forall (fun s => commaFree s = true) (notExistingIDs e2)) as Hf2
    by (repeat constructor).
  split; [discriminate|]. split; [discriminate|].
  split; [exact Hf1|]. split; [exact Hf2|]. split; [reflexivity|].
  apply (reservationError_message_inj e1 e2);
    [discriminate|discriminate|exact Hf1|exact Hf2|reflexivity].
Defined.

(** With a comma in an identifier the message is ambiguous. *)
Example reservationError_message_comma :
  reservationError_Error {| notExistingIDs := ["a,b"] |} =
  reservationError_Error {| notExistingIDs := ["a"; "b"] |}.
Proof. reflexivity. Qed.

(** ** Configuration *)

Section SetConfigProperties.

Variable MsgPackDecode : list Byte.byte → Config * option string.
Variable ParseDuration : string → Z * option string.

(** X17. [SetConfig] never touches the device cache.  When it returns an
    error (the configuration cannot be decoded, or its period cannot be
    parsed) the plugin is left exactly as it was: no field is assigned
    before both steps have succeeded.  When it returns no error, the
    enabled flag and the period are those of the decoded configuration. *)
Theorem SetConfig_all_or_nothing (c : BaseConfig) (d : GenicamDevice) :
  let r := SetConfig MsgPackDecode ParseDuration c d in
  devices r.1 = devices d ∧
  (r.2 ≠ None → r.1 = d) ∧
  (r.2 = None →
     ∃ config period,
       MsgPackDecode (PluginConfig c) = (config, None) ∧
       ParseDuration (FingerprintPeriod config) = (period, None) ∧
       enabled r.1 = Enabled config ∧ fingerprintPeriod r.1 = period).
Proof.
  intros r. unfold r, SetConfig.
  destruct (MsgPackDecode (PluginConfig c)) as [config [err|]].
  { simpl. split_and!; [done|done|intros [=]]. }
  destruct (ParseDuration (FingerprintPeriod config)) as [period [err|]] eqn:Hparse.
  { simpl. split_and!; [done|done|intros [=]]. }
  simpl. split_and!; [done|intros H; exfalso; by apply H|].
  intros _. by exists config, period.
Qed.

(** X18. A new plugin grants no device until it has been configured as
    enabled: whether [SetConfig] fails or succeeds with [enabled] off,
    every non-empty request is refused with the "disabled" error. *)
Theorem new_plugin_refuses_until_enabled (c : BaseConfig) (deviceIDs : list string) :
  deviceIDs ≠ [] →
  (SetConfig MsgPackDecode ParseDuration c NewGenicamDevice).2 ≠ None ∨
    Enabled (MsgPackDecode (PluginConfig c)).1 = false →
  Reserve NewGenicamDevice deviceIDs = (None, Some errPluginDisabled) ∧
  Reserve (SetConfig MsgPackDecode ParseDuration c NewGenicamDevice).1 deviceIDs =
    (None, Some errPluginDisabled).
Proof.
  intros Hne Hoff. destruct deviceIDs as [|s rest]; [done|]. split; [done|].
  revert Hoff. unfold SetConfig.
  destruct (MsgPackDecode (PluginConfig c)) as [config [err|]]; [done|].
  destruct (ParseDuration (FingerprintPeriod config)) as [period [err|]]; [done|].
  simpl. intros [?|Hoff]; [done|]. unfold Reserve. simpl. by rewrite Hoff.
Qed.

End SetConfigProperties.

Lemma new_plugin_refuses_until_enabled_witness :
  let decode := fun _ : list Byte.byte =>
    ({| Enabled := true; FingerprintPeriod := "soon" |}, @None string) in
  let parse := fun _ : string => (0%Z, Some "time: invalid duration") in
  let c := {| PluginConfig := [] |} in
  ["A1"] ≠ [] ∧
  ((SetConfig decode parse c NewGenicamDevice).2 ≠ None ∨
     Enabled (decode (PluginConfig c)).1 = false) ∧
  Reserve NewGenicamDevice ["A1"] = (None, Some errPluginDisabled) ∧
  Reserve (SetConfig decode parse c NewGenicamDevice).1 ["A1"] =
    (None, Some errPluginDisabled).
Proof.
  intros decode parse c.
  split; [discriminate|]. split; [left; discriminate|].
  apply (new_plugin_refuses_until_enabled decode parse c ["A1"]);
    [discriminate|left; discriminate].
Defined.
